(** * Deutsch-Jozsa, Quantum Phase Estimation and the variational-form
      initial state of qiskit-aqua: a shallow embedding and its properties.

    The three Python modules are embedded as Rocq functions.  Python values
    keep their shape: [int] is [Z], [float] is an IEEE-754 binary64 value
    ([spec_float] with precision 53 and maximal exponent 1024), a number
    that may be a [numpy.float64] scalar is a [number], [str] is
    [string], a list is a [list], the result dictionary [_ret] is a
    [gmap string pyval], and a dictionary whose iteration order matters
    (measurement counts) is an association list in insertion order.
    A raised exception is the [Raise] case of [result]. *)

From Stdlib Require Import ZArith List String Ascii Bool Lia QArith Qabs Lqa.
From Stdlib Require Import Qpower Qfield.
From Stdlib Require Import Sorting.Sorted Sorting.Permutation.
From Stdlib Require Import Floats.SpecFloat.
From stdpp Require Import gmap strings.
Import ListNotations.

Local Open Scope string_scope.
Local Open Scope list_scope.
Local Open Scope Z_scope.

(* ================================================================== *)
(** * Python values, exceptions and arithmetic                          *)
(* ================================================================== *)

Module Py.

(** The exception classes the three modules can raise or meet. *)
Inductive exn : Type :=
| ValueError
| RuntimeError
| ZeroDivisionError
| OverflowError
| IndexError
| KeyError
| TypeError
| AquaError
| QiskitError.

(** The outcome of a Python call: a value, or a raised exception. *)
Inductive result (A : Type) : Type :=
| Ok (a : A)
| Raise (e : exn).
Arguments Ok {A} a.
Arguments Raise {A} e.

Definition bind {A B : Type} (c : result A) (k : A -> result B) : result B :=
  match c with
  | Ok a => k a
  | Raise e => Raise e
  end.

Notation "x <- c ;; k" := (bind c (fun x => k))
  (at level 100, c at next level, right associativity).

(** A list comprehension whose body may raise: evaluated left to right,
    the first exception aborts it. *)
Fixpoint mapM {A B : Type} (f : A -> result B) (l : list A) : result (list B) :=
  match l with
  | [] => Ok []
  | x :: l' => y <- f x ;; ys <- mapM f l' ;; Ok (y :: ys)
  end.

(** ** Floats: IEEE-754 binary64 *)

Definition prec : Z := 53.
Definition emax : Z := 1024.

Abbreviation float := spec_float.

(** The doubles [0.0] and [0.5]. *)
Definition fzero : float := S754_zero false.
Definition fhalf : float := S754_finite false 4503599627370496 (-53).

Definition is_zero (f : float) : bool :=
  match f with
  | S754_zero _ => true
  | _ => false
  end.

(** An integer as an exact, unnormalised binary value [z * 2^0]. *)
Definition Z2SF (z : Z) : float :=
  match z with
  | Z0 => S754_zero false
  | Zpos p => S754_finite false p 0
  | Zneg p => S754_finite true p 0
  end.

(** [float(z)]: the integer rounded to the nearest double (ties to even);
    an integer beyond the range of doubles raises [OverflowError]. *)
Definition float_of_int (z : Z) : result float :=
  match binary_normalize prec emax z 0 false with
  | S754_infinity _ => Raise OverflowError
  | f => Ok f
  end.

(** [a / b] on two ints: the correctly rounded quotient of the two
    integers ([SFdiv] rounds the exact quotient of the exact operands). *)
Definition int_truediv (a b : Z) : result float :=
  if b =? 0 then Raise ZeroDivisionError
  else match SFdiv prec emax (Z2SF a) (Z2SF b) with
       | S754_infinity _ => Raise OverflowError
       | f => Ok f
       end.

(** ** Numbers: [int] and [float] *)

Inductive pynum : Type :=
| PyInt (z : Z)
| PyFloat (f : float).

Definition to_float (a : pynum) : result float :=
  match a with
  | PyInt z => float_of_int z
  | PyFloat f => Ok f
  end.

(** [a + b]. *)
Definition py_add (a b : pynum) : result pynum :=
  match a, b with
  | PyInt x, PyInt y => Ok (PyInt (x + y))
  | _, _ => x <- to_float a ;; y <- to_float b ;; Ok (PyFloat (SFadd prec emax x y))
  end.

(** [a - b]. *)
Definition py_sub (a b : pynum) : result pynum :=
  match a, b with
  | PyInt x, PyInt y => Ok (PyInt (x - y))
  | _, _ => x <- to_float a ;; y <- to_float b ;; Ok (PyFloat (SFsub prec emax x y))
  end.

(** [a * b]. *)
Definition py_mul (a b : pynum) : result pynum :=
  match a, b with
  | PyInt x, PyInt y => Ok (PyInt (x * y))
  | _, _ => x <- to_float a ;; y <- to_float b ;; Ok (PyFloat (SFmul prec emax x y))
  end.

(** [a / b]: true division; a zero divisor raises [ZeroDivisionError]
    (Python does not return an infinity). *)
Definition py_truediv (a b : pynum) : result pynum :=
  match a, b with
  | PyInt x, PyInt y => q <- int_truediv x y ;; Ok (PyFloat q)
  | _, _ =>
      x <- to_float a ;; y <- to_float b ;;
      if is_zero y then Raise ZeroDivisionError
      else Ok (PyFloat (SFdiv prec emax x y))
  end.

(** [abs(a)]. *)
Definition py_abs (a : pynum) : pynum :=
  match a with
  | PyInt z => PyInt (Z.abs z)
  | PyFloat f => PyFloat (SFabs f)
  end.

(** [a == 0] on numbers. *)
Definition py_is_zero (a : pynum) : bool :=
  match a with
  | PyInt z => z =? 0
  | PyFloat f => is_zero f
  end.

(** [sum(l)]: the accumulator starts at the int [0] and the items are
    added from left to right. *)
Fixpoint sum_from (acc : pynum) (l : list pynum) : result pynum :=
  match l with
  | [] => Ok acc
  | x :: l' => acc' <- py_add acc x ;; sum_from acc' l'
  end.

Definition py_sum (l : list pynum) : result pynum := sum_from (PyInt 0) l.

(** ** Numbers: Python numbers and [numpy.float64] scalars *)

(** The coefficients of an operator may be numpy scalars
    ([numpy.complex128], [numpy.float64]), and [abs] of such a scalar is a
    [numpy.float64].  A binary operation with a
    [numpy.float64] operand is carried out by numpy: the other operand is
    converted to a double, the operation is the IEEE-754 one and the
    result is a [numpy.float64]; a division by zero gives an infinity or a
    NaN (with a warning), it does not raise. *)
Inductive number : Type :=
| Python (a : pynum)
| Float64 (f : float).

Coercion Python : pynum >-> number.

Definition num_to_float (a : number) : result float :=
  match a with
  | Python p => to_float p
  | Float64 f => Ok f
  end.

(** [a + b]. *)
Definition num_add (a b : number) : result number :=
  match a, b with
  | Python x, Python y => r <- py_add x y ;; Ok (Python r)
  | _, _ =>
      x <- num_to_float a ;; y <- num_to_float b ;;
      Ok (Float64 (SFadd prec emax x y))
  end.

(** [a - b]. *)
Definition num_sub (a b : number) : result number :=
  match a, b with
  | Python x, Python y => r <- py_sub x y ;; Ok (Python r)
  | _, _ =>
      x <- num_to_float a ;; y <- num_to_float b ;;
      Ok (Float64 (SFsub prec emax x y))
  end.

(** [a * b]. *)
Definition num_mul (a b : number) : result number :=
  match a, b with
  | Python x, Python y => r <- py_mul x y ;; Ok (Python r)
  | _, _ =>
      x <- num_to_float a ;; y <- num_to_float b ;;
      Ok (Float64 (SFmul prec emax x y))
  end.

(** [a / b]: two Python numbers divide as Python numbers do; with a
    [numpy.float64] operand the quotient is numpy's. *)
Definition num_truediv (a b : number) : result number :=
  match a, b with
  | Python x, Python y => r <- py_truediv x y ;; Ok (Python r)
  | _, _ =>
      x <- num_to_float a ;; y <- num_to_float b ;;
      Ok (Float64 (SFdiv prec emax x y))
  end.

(** [abs(a)]. *)
Definition num_abs (a : number) : number :=
  match a with
  | Python p => Python (py_abs p)
  | Float64 f => Float64 (SFabs f)
  end.

(** [sum(l)] on such numbers. *)
Fixpoint num_sum_from (acc : number) (l : list number) : result number :=
  match l with
  | [] => Ok acc
  | x :: l' => acc' <- num_add acc x ;; num_sum_from acc' l'
  end.

Definition num_sum (l : list number) : result number :=
  num_sum_from (Python (PyInt 0)) l.

(** [range(a, b)] on ints. *)
Definition py_range (a b : Z) : list Z :=
  map (fun i => a + Z.of_nat i) (seq 0 (Z.to_nat (b - a))).

(** ** [int(s)] on a string, base 10 *)

(** The white space [int] skips around the digits of an ASCII string:
    tab, line feed, vertical tab, form feed, carriage return and space. *)
Definition is_space (c : ascii) : bool :=
  let n := nat_of_ascii c in
  ((9 <=? n) && (n <=? 13) || (n =? 32))%nat.

Definition digit_of (c : ascii) : option Z :=
  let n := Z.of_nat (nat_of_ascii c) in
  if (48 <=? n) && (n <=? 57) then Some (n - 48) else None.

Fixpoint lstrip (l : list ascii) : list ascii :=
  match l with
  | c :: l' => if is_space c then lstrip l' else l
  | [] => []
  end.

Definition strip (l : list ascii) : list ascii :=
  rev (lstrip (rev (lstrip l))).

(** Digits, with single underscores allowed between two digits.
    [prev] tells whether the previous character was a digit. *)
Fixpoint parse_digits (acc : Z) (prev : bool) (l : list ascii) : option Z :=
  match l with
  | [] => if prev then Some acc else None
  | c :: l' =>
      match digit_of c with
      | Some d => parse_digits (10 * acc + d) true l'
      | None =>
          if Ascii.eqb c "_" && prev then parse_digits acc false l' else None
      end
  end.

Definition py_int (s : string) : result Z :=
  let body := strip (list_ascii_of_string s) in
  let parsed :=
    match body with
    | c :: l' =>
        if Ascii.eqb c "-" then option_map Z.opp (parse_digits 0 false l')
        else if Ascii.eqb c "+" then parse_digits 0 false l'
        else parse_digits 0 false body
    | [] => None
    end in
  match parsed with
  | Some z => Ok z
  | None => Raise ValueError
  end.

(** ** [max(l, key=...)] *)

(** Python's [max] keeps the first item whose key is maximal: a later item
    replaces the current one only when its key is strictly greater. *)
Fixpoint max_from {A : Type} (key : A -> Z) (best : A) (l : list A) : A :=
  match l with
  | [] => best
  | x :: l' => max_from key (if key best <? key x then x else best) l'
  end.

Definition py_max {A : Type} (key : A -> Z) (l : list A) : result A :=
  match l with
  | [] => Raise ValueError
  | x :: l' => Ok (max_from key x l')
  end.

(** [s[::-1]] on a string. *)
Definition str_rev (s : string) : string :=
  string_of_list_ascii (rev (list_ascii_of_string s)).

End Py.

Import Py.

(* ================================================================== *)
(** * Circuits of the quantum framework                                 *)
(* ================================================================== *)

(** The circuit classes belong to the framework the algorithms are built
    on.  A circuit is kept as what the algorithms can observe of it: its
    registers and the list of its instructions. *)
Module Terra.

Inductive reg_kind : Type := Quantum | Classical.

Record register : Type := {
  kind : reg_kind;
  reg_name : string;
  reg_size : nat
}.

(** A bit is a register and an index in it. *)
Definition bit : Type := register * nat.

Record instruction : Type := {
  op_name : string;
  qargs : list bit;
  cargs : list bit
}.

Record QuantumCircuit : Type := {
  qregs : list register;
  cregs : list register;
  data : list instruction
}.

Definition QuantumRegister (size : nat) (name : string) : register :=
  {| kind := Quantum; reg_name := name; reg_size := size |}.

Definition ClassicalRegister (size : nat) (name : string) : register :=
  {| kind := Classical; reg_name := name; reg_size := size |}.

Definition reg_kind_eqb (a b : reg_kind) : bool :=
  match a, b with
  | Quantum, Quantum | Classical, Classical => true
  | _, _ => false
  end.

Definition register_eqb (a b : register) : bool :=
  reg_kind_eqb (kind a) (kind b) && String.eqb (reg_name a) (reg_name b)
  && Nat.eqb (reg_size a) (reg_size b).

Definition is_quantum (r : register) : bool := reg_kind_eqb (kind r) Quantum.
Definition is_classical (r : register) : bool := reg_kind_eqb (kind r) Classical.

(** [len(r)] and the bits of a register, in index order. *)
Definition bits_of (r : register) : list bit :=
  map (fun i => (r, i)) (seq 0 (reg_size r)).

(** [QuantumCircuit(regs...)] for registers that are pairwise different:
    an empty circuit over the given registers (the framework refuses a
    register that is given twice). *)
Definition new_circuit (regs : list register) : QuantumCircuit :=
  {| qregs := List.filter is_quantum regs;
     cregs := List.filter is_classical regs;
     data := [] |}.

Definition append (qc : QuantumCircuit) (ins : list instruction) : QuantumCircuit :=
  {| qregs := qregs qc; cregs := cregs qc; data := data qc ++ ins |}.

(** [qc.h(reg)], [qc.x(reg)]: the gate on every qubit of the register. *)
Definition gate_on (name : string) (q : bit) : instruction :=
  {| op_name := name; qargs := [q]; cargs := [] |}.

Definition h (qc : QuantumCircuit) (reg : register) : QuantumCircuit :=
  append qc (map (gate_on "h") (bits_of reg)).

Definition x (qc : QuantumCircuit) (reg : register) : QuantumCircuit :=
  append qc (map (gate_on "x") (bits_of reg)).

(** [qc.barrier()]: one barrier over all the qubits of the circuit. *)
Definition barrier (qc : QuantumCircuit) : QuantumCircuit :=
  append qc [{| op_name := "barrier";
                qargs := flat_map bits_of (qregs qc);
                cargs := [] |}].

(** [qc.measure(qreg, creg)]: qubit [i] is measured into bit [i]. *)
Definition measure_bit (qc : bit * bit) : instruction :=
  {| op_name := "measure"; qargs := [fst qc]; cargs := [snd qc] |}.

Definition measure (qc : QuantumCircuit) (qreg creg : register) : QuantumCircuit :=
  append qc (map measure_bit (combine (bits_of qreg) (bits_of creg))).

(** Two circuits are compatible when no register name is used by both
    for two different registers. *)
Definition compatible_regs (l1 l2 : list register) : bool :=
  forallb (fun r1 =>
    forallb (fun r2 =>
      negb (String.eqb (reg_name r2) (reg_name r1)) || register_eqb r1 r2) l2) l1.

Definition merge_regs (l1 l2 : list register) : list register :=
  l1 ++ List.filter (fun r => negb (existsb (register_eqb r) l1)) l2.

(** [lhs + rhs]: a new circuit over the registers of both, whose
    instructions are those of [lhs] followed by those of [rhs]. *)
Definition add (lhs rhs : QuantumCircuit) : result QuantumCircuit :=
  if compatible_regs (qregs lhs ++ cregs lhs) (qregs rhs ++ cregs rhs) then
    Ok {| qregs := merge_regs (qregs lhs) (qregs rhs);
          cregs := merge_regs (cregs lhs) (cregs rhs);
          data := data lhs ++ data rhs |}
  else Raise QiskitError.

(** The store of circuit objects: an object is named by its position. *)
Definition ref : Type := nat.
Definition heap : Type := list QuantumCircuit.

Definition alloc (hp : heap) (qc : QuantumCircuit) : ref * heap :=
  (List.length hp, hp ++ [qc]).

Definition deref (hp : heap) (r : ref) : option QuantumCircuit := nth_error hp r.

End Terra.

(* ================================================================== *)
(** * The Deutsch-Jozsa algorithm (dj.py)                               *)
(* ================================================================== *)

Module DeutschJozsa.
Import Terra.

(** What the algorithm reads of its oracle. *)
Record Oracle : Type := {
  variable_register : register;
  output_register : register;
  circuit : QuantumCircuit
}.

(** The instance: [_circuit] is [None] until the circuit is built, then
    the circuit object. *)
Record t : Type := {
  _oracle : Oracle;
  _circuit : option ref
}.

Definition __init__ (oracle : Oracle) : t :=
  {| _oracle := oracle; _circuit := None |}.

(** The four segments, as [construct_circuit] builds them. *)
Definition qc_preoracle (o : Oracle) : QuantumCircuit :=
  barrier
    (h (x (h (new_circuit [variable_register o; output_register o])
             (variable_register o))
          (output_register o))
       (output_register o)).

Definition qc_oracle (o : Oracle) : QuantumCircuit := circuit o.

Definition qc_postoracle (o : Oracle) : QuantumCircuit :=
  barrier
    (h (new_circuit [variable_register o; output_register o])
       (variable_register o)).

Definition measurement_cr (o : Oracle) : register :=
  ClassicalRegister (reg_size (variable_register o)) "m".

Definition qc_measurement (o : Oracle) : QuantumCircuit :=
  measure (new_circuit [variable_register o; measurement_cr o])
          (variable_register o) (measurement_cr o).

(** [construct_circuit]: every circuit object it creates is allocated in
    the store, in the order of creation. *)
Definition construct_circuit (self : t) (hp : heap) : result (ref * t * heap) :=
  match _circuit self with
  | Some c => Ok (c, self, hp)
  | None =>
      let o := _oracle self in
      let '(_, hp) := alloc hp (qc_preoracle o) in
      let '(_, hp) := alloc hp (qc_postoracle o) in
      let '(_, hp) := alloc hp (qc_measurement o) in
      s1 <- add (qc_preoracle o) (qc_oracle o) ;;
      let '(_, hp) := alloc hp s1 in
      s2 <- add s1 (qc_postoracle o) ;;
      let '(_, hp) := alloc hp s2 in
      s3 <- add s2 (qc_measurement o) ;;
      let '(c, hp) := alloc hp s3 in
      Ok (c, {| _oracle := o; _circuit := Some c |}, hp)
  end.

(** [measurements]: the counts dictionary, its items in iteration order. *)
Definition interpret_measurement (measurements : list (string * Z)) : result string :=
  top <- py_max snd measurements ;;
  top_measurement <- py_int (fst top) ;;
  if top_measurement =? 0 then Ok "constant" else Ok "balanced".

End DeutschJozsa.

(* ================================================================== *)
(** * The initial state built on a variational form (var_form_based.py) *)
(* ================================================================== *)

Module VarFormBased.
Import Terra.

(** What the initial state uses of a variational form: its declared number
    of parameters and its circuit builder. *)
Record VariationalForm : Type := {
  num_parameters : Z;
  vf_construct_circuit : list pynum -> option register -> result QuantumCircuit
}.

Record t : Type := {
  _var_form : VariationalForm;
  _var_form_params : list pynum
}.

Definition __init__ (var_form : VariationalForm) (params : list pynum) : result t :=
  if negb (num_parameters var_form =? Z.of_nat (List.length params)) then
    Raise RuntimeError
  else
    Ok {| _var_form := var_form; _var_form_params := params |}.

Definition construct_circuit (self : t) (mode : string) (register : option register)
  : result QuantumCircuit :=
  if String.eqb mode "vector" then Raise RuntimeError
  else if String.eqb mode "circuit" then
    vf_construct_circuit (_var_form self) (_var_form_params self) register
  else Raise ValueError.

End VarFormBased.

(* ================================================================== *)
(** * What the phase estimation uses of numpy and of the builtins       *)
(* ================================================================== *)

(** The diagonal of the reduced density matrix is only compared, tested
    for equality and passed to [abs]; these operations are exact on
    doubles, so an entry is kept as the rational number it denotes (the
    diagonal of a density matrix is real). *)
Module Np.

Definition Qltb (a b : Q) : bool := negb (Qle_bool b a).

Fixpoint min_from (best : Q) (l : list Q) : Q :=
  match l with
  | [] => best
  | v :: l' => min_from (if Qltb v best then v else best) l'
  end.

Fixpoint max_from (best : Q) (l : list Q) : Q :=
  match l with
  | [] => best
  | v :: l' => max_from (if Qltb best v then v else best) l'
  end.

(** [a.min()] and [a.max()]; an empty array raises [ValueError]. *)
Definition min (a : list Q) : result Q :=
  match a with
  | [] => Raise ValueError
  | v :: l => Ok (min_from v l)
  end.

Definition max (a : list Q) : result Q :=
  match a with
  | [] => Raise ValueError
  | v :: l => Ok (max_from v l)
  end.

(** [np.where(a == v)[0]]: the indices whose entry equals [v], ascending. *)
Fixpoint where_eq (a : list Q) (v : Q) (i : nat) : list nat :=
  match a with
  | [] => []
  | w :: a' => if Qeq_bool w v then i :: where_eq a' v (S i) else where_eq a' v (S i)
  end.

(** [bin(num)[2:]]: the binary digits, most significant first. *)
Fixpoint pos_bin (p : positive) (acc : string) : string :=
  match p with
  | xH => String "1" acc
  | xO p' => pos_bin p' (String "0" acc)
  | xI p' => pos_bin p' (String "1" acc)
  end.

Definition bin (num : N) : string :=
  match num with
  | N0 => "0"
  | Npos p => pos_bin p ""
  end.

(** [s.zfill(width)] on a string of digits. *)
Fixpoint zeros (n : nat) : string :=
  match n with
  | O => ""
  | S n' => String "0" (zeros n')
  end.

Definition zfill (s : string) (width : nat) : string :=
  String.append (zeros (width - String.length s)) s.

(** [np.binary_repr(num, width)] for [num >= 0]. *)
Definition binary_repr (num : nat) (width : Z) : string :=
  let binary := bin (N.of_nat num) in
  let binwidth := String.length binary in
  zfill binary (Nat.max binwidth (Z.to_nat width)).

(** Tuples [(count, key)] in Python's order: by count, then by key. *)
Definition tuple_leb (a b : Z * string) : bool :=
  (fst a <? fst b) || ((fst a =? fst b) && String.leb (snd a) (snd b)).

(** [sorted(l)]: a stable sort into ascending order. *)
Fixpoint insert_sorted (a : Z * string) (l : list (Z * string)) : list (Z * string) :=
  match l with
  | [] => [a]
  | b :: l' => if tuple_leb b a then b :: insert_sorted a l' else a :: l
  end.

Fixpoint sorted (l : list (Z * string)) : list (Z * string) :=
  match l with
  | [] => []
  | a :: l' => insert_sorted a (sorted l')
  end.

End Np.

(* ================================================================== *)
(** * Quantum phase estimation (qpe.py)                                 *)
(* ================================================================== *)

Module QPE.

Definition PROP_NUM_TIME_SLICES : string := "num_time_slices".
Definition PROP_EXPANSION_MODE : string := "expansion_mode".
Definition PROP_EXPANSION_ORDER : string := "expansion_order".
Definition PROP_NUM_ANCILLAE : string := "num_ancillae".

(** ** The configuration schema *)

(** A Python value as the schema validation sees it; [JObject] stands for
    any object that is neither an int, a string nor a bool. *)
Inductive json : Type :=
| JInt (z : Z)
| JStr (s : string)
| JBool (b : bool)
| JObject.

Inductive json_type : Type := TInteger | TString.

Record property_schema : Type := {
  ptype : json_type;
  pdefault : json;
  pminimum : option Z;
  poneOf : option (list (list string))
}.

Record schema : Type := {
  schema_uri : string;
  id : string;
  stype : string;
  properties : list (string * property_schema);
  additionalProperties : bool
}.

Record configuration : Type := {
  name : string;
  description : string;
  input_schema : schema;
  problems : list string;
  depends : list (string * string)
}.

Definition CONFIGURATION : configuration := {|
  name := "QPE";
  description := "Quantum Phase Estimation for Quantum Systems";
  input_schema := {|
    schema_uri := "http://json-schema.org/schema#";
    id := "qpe_schema";
    stype := "object";
    properties := [
      (PROP_NUM_TIME_SLICES,
        {| ptype := TInteger; pdefault := JInt 1; pminimum := Some 1; poneOf := None |});
      (PROP_EXPANSION_MODE,
        {| ptype := TString; pdefault := JStr "trotter"; pminimum := None;
           poneOf := Some [["suzuki"; "trotter"]] |});
      (PROP_EXPANSION_ORDER,
        {| ptype := TInteger; pdefault := JInt 1; pminimum := Some 1; poneOf := None |});
      (PROP_NUM_ANCILLAE,
        {| ptype := TInteger; pdefault := JInt 1; pminimum := Some 1; poneOf := None |})
    ];
    additionalProperties := false
  |};
  problems := ["energy"];
  depends := [("initial_state", "ZERO"); ("iqft", "STANDARD")]
|}.

Definition type_ok (ty : json_type) (v : json) : bool :=
  match ty, v with
  | TInteger, JInt _ => true
  | TString, JStr _ => true
  | _, _ => false
  end.

Definition minimum_ok (m : option Z) (v : json) : bool :=
  match m, v with
  | Some lo, JInt z => lo <=? z
  | _, _ => true
  end.

Definition in_enum (e : list string) (v : json) : bool :=
  match v with
  | JStr s => existsb (String.eqb s) e
  | _ => false
  end.

Definition oneOf_ok (o : option (list (list string))) (v : json) : bool :=
  match o with
  | Some enums => Nat.eqb (List.length (List.filter (fun e => in_enum e v) enums)) 1
  | None => true
  end.

Definition property_ok (ps : property_schema) (v : json) : bool :=
  type_ok (ptype ps) v && minimum_ok (pminimum ps) v && oneOf_ok (poneOf ps) v.

(** Modelled from the spec: [Pluggable.validate], which [__init__] calls and
    which is not among the source files.  The spec describes it as the
    validation of the constructor's named options against the fixed schema
    (types and minimums): every option the schema names and the arguments
    supply must have the declared type, reach the declared minimum and be
    one of the declared choices; a violation fails the construction. *)
Definition validate (cfg : configuration) (args : gmap string json) : result unit :=
  if forallb (fun p : string * property_schema =>
                match args !! fst p with
                | Some v => property_ok (snd p) v
                | None => true
                end)
             (properties (input_schema cfg))
  then Ok tt else Raise AquaError.

(** ** The algorithm *)

(** The values kept in the result dictionary [_ret]. *)
Inductive pyval : Type :=
| VNum (n : number)
| VStr (s : string)
| VList (l : list number).

(** [d[key]] and the use of the value as a number. *)
Definition getitem (d : gmap string pyval) (key : string) : result pyval :=
  match d !! key with
  | Some v => Ok v
  | None => Raise KeyError
  end.

Definition as_num (v : pyval) : result number :=
  match v with
  | VNum n => Ok n
  | _ => Raise TypeError
  end.

(** What the backend hands back: when the quantum instance is a
    state-vector one ([is_statevector]), the diagonal of the reduced density
    matrix of the ancillae; otherwise the counts of the measured ancilla
    register (items in iteration order). *)
Inductive backend_result : Type :=
| Statevector (ancilla_density_mat_diag : list Q)
| Counts (ancilla_counts : list (string * Z)).

Definition is_statevector (r : backend_result) : bool :=
  match r with
  | Statevector _ => true
  | Counts _ => false
  end.

Section Algorithm.

(** The coefficients of the operator's Pauli terms are Python numbers or
    numpy scalars (in general complex); the algorithm takes their [abs],
    a Python [int] or [float] or a [numpy.float64], and scales them.
    The shift of the operator by the translation and the construction of
    the phase-estimation circuit are the framework's and leave no trace in
    the fields kept here. *)
Variable coeff : Type.
Variable coeff_abs : coeff -> number.
Variable coeff_scale : coeff -> number -> result coeff.
(** The initial-state and inverse-QFT components are only passed on. *)
Variables InitialState IQFT : Type.

Record Operator : Type := {
  get_flat_pauli_list : list coeff;
  num_qubits : Z
}.

Record t : Type := {
  _num_ancillae : Z;
  _ret : gmap string pyval;
  _pauli_list : list coeff;
  _binary_fractions : list pynum
}.

(** [1 / 2 ** p]. *)
Definition binary_fraction (p : Z) : result pynum :=
  py_truediv (PyInt 1) (PyInt (2 ^ p)).

(** [locals()] at the first line of [__init__]: the arguments by name. *)
Definition locals (operator : Operator) (state_in : InitialState) (iqft : IQFT)
    (num_time_slices num_ancillae : Z) (expansion_mode : string)
    (expansion_order : Z) (shallow_circuit_concat : bool) : gmap string json :=
  <["self" := JObject]> (<["operator" := JObject]> (<["state_in" := JObject]>
  (<["iqft" := JObject]> (<["num_time_slices" := JInt num_time_slices]>
  (<["num_ancillae" := JInt num_ancillae]> (<["expansion_mode" := JStr expansion_mode]>
  (<["expansion_order" := JInt expansion_order]>
  (<["shallow_circuit_concat" := JBool shallow_circuit_concat]> ∅)))))))).

Definition __init__ (operator : Operator) (state_in : InitialState) (iqft : IQFT)
    (num_time_slices num_ancillae : Z) (expansion_mode : string)
    (expansion_order : Z) (shallow_circuit_concat : bool) : result t :=
  _ <- validate CONFIGURATION
         (locals operator state_in iqft num_time_slices num_ancillae
                 expansion_mode expansion_order shallow_circuit_concat) ;;
  let ret : gmap string pyval := ∅ in
  let pauli_list := get_flat_pauli_list operator in
  translation <- num_sum (map coeff_abs pauli_list) ;;
  let ret := <["translation" := VNum translation]> ret in
  stretch <- num_truediv (PyFloat fhalf) translation ;;
  let ret := <["stretch" := VNum stretch]> ret in
  pauli_list <- mapM (fun p => coeff_scale p stretch) pauli_list ;;
  binary_fractions <- mapM binary_fraction (py_range 1 (num_ancillae + 1)) ;;
  Ok {| _num_ancillae := num_ancillae;
        _ret := ret;
        _pauli_list := pauli_list;
        _binary_fractions := binary_fractions |}.

(** The label of the top measurement, state-vector mode. *)
Definition statevector_label (num_ancillae : Z) (diag : list Q) : result string :=
  lo <- Np.min diag ;;
  hi <- Np.max diag ;;
  let max_amplitude := if Np.Qltb (Qabs lo) (Qabs hi) then hi else lo in
  match Np.where_eq diag max_amplitude 0 with
  | [] => Raise IndexError
  | max_amplitude_idx :: _ =>
      Ok (str_rev (Np.binary_repr max_amplitude_idx num_ancillae))
  end.

(** The label of the top measurement, counts mode. *)
Definition counts_label (ancilla_counts : list (string * Z)) : result string :=
  match rev (Np.sorted (map (fun kc => (snd kc, fst kc)) ancilla_counts)) with
  | [] => Raise IndexError
  | top :: _ => Ok (str_rev (snd top))
  end.

(** [sum([t[0] * t[1] for t in zip(fractions, [int(n) for n in label])])]. *)
Definition label_decimal (fractions : list pynum) (label : string) : result pynum :=
  bits <- mapM (fun n => py_int (String n EmptyString)) (list_ascii_of_string label) ;;
  terms <- mapM (fun t : pynum * Z => py_mul (fst t) (PyInt (snd t)))
                (combine fractions bits) ;;
  py_sum terms.

Definition top_measurement_label (num_ancillae : Z) (res : backend_result)
  : result string :=
  match res with
  | Statevector diag => statevector_label num_ancillae diag
  | Counts ancilla_counts => counts_label ancilla_counts
  end.

(** [_compute_energy] from the answer of the backend on.  The circuit is
    the framework's: [construct_circuit] hands over the circuit object of
    the phase-estimation component, in counts mode the code adds the
    classical register 'ca', a barrier and the measurement of the
    ancillae to that object, and the backend executes it.  None of this is
    kept in the fields below; [res] is what the execution gave, and the
    function describes a call in which these circuit steps go through, as
    they do on the first call on an instance. *)
Definition _compute_energy (self : t) (res : backend_result) : result t :=
  top_measurement_label <- top_measurement_label (_num_ancillae self) res ;;
  top_measurement_decimal <- label_decimal (_binary_fractions self) top_measurement_label ;;
  let ret := <["top_measurement_label" := VStr top_measurement_label]> (_ret self) in
  let ret := <["top_measurement_decimal" := VNum top_measurement_decimal]> ret in
  stretch <- (v <- getitem ret "stretch" ;; as_num v) ;;
  scaled <- num_truediv top_measurement_decimal stretch ;;
  translation <- (v <- getitem ret "translation" ;; as_num v) ;;
  eigval <- num_sub scaled translation ;;
  let ret := <["eigvals" := VList [eigval]]> ret in
  let ret := <["energy" := VNum eigval]> ret in
  Ok {| _num_ancillae := _num_ancillae self;
        _ret := ret;
        _pauli_list := _pauli_list self;
        _binary_fractions := _binary_fractions self |}.

Definition _run (self : t) (res : backend_result) : result (gmap string pyval) :=
  self <- _compute_energy self res ;;
  Ok (_ret self).

End Algorithm.

Arguments Operator : clear implicits.
Arguments t : clear implicits.
Arguments get_flat_pauli_list {coeff} _.
Arguments num_qubits {coeff} _.
Arguments _num_ancillae {coeff} _.
Arguments _ret {coeff} _.
Arguments _pauli_list {coeff} _.
Arguments _binary_fractions {coeff} _.
Arguments __init__ {coeff} coeff_abs coeff_scale {InitialState IQFT} operator state_in iqft
  num_time_slices num_ancillae expansion_mode expansion_order shallow_circuit_concat.
Arguments locals {coeff InitialState IQFT} operator state_in iqft
  num_time_slices num_ancillae expansion_mode expansion_order shallow_circuit_concat.
Arguments _compute_energy {coeff} self res.
Arguments _run {coeff} self res.

End QPE.

(* ================================================================== *)
(** * Vocabulary of the statements                                      *)
(* ================================================================== *)

(** A measured bitstring: at least one character, each ['0'] or ['1']. *)
Definition is_bit (c : ascii) : bool := Ascii.eqb c "0" || Ascii.eqb c "1".

Definition is_bitstring (s : string) : bool :=
  match list_ascii_of_string s with
  | [] => false
  | l => forallb is_bit l
  end.

(** The all-zero bitstring. *)
Definition all_zeros (s : string) : bool :=
  forallb (Ascii.eqb "0"%char) (list_ascii_of_string s).

(** Structural equality of doubles (it tells [0.0] from [-0.0]). *)
Definition float_eqb (a b : float) : bool :=
  match a, b with
  | S754_zero s1, S754_zero s2 => Bool.eqb s1 s2
  | S754_infinity s1, S754_infinity s2 => Bool.eqb s1 s2
  | S754_nan, S754_nan => true
  | S754_finite s1 m1 e1, S754_finite s2 m2 e2 =>
      Bool.eqb s1 s2 && Pos.eqb m1 m2 && Z.eqb e1 e2
  | _, _ => false
  end.

(** A double that is [0.0] or positive and finite. *)
Definition nonneg_finite (f : float) : bool :=
  match f with
  | S754_zero false | S754_finite false _ _ => true
  | _ => false
  end.

(** The double [1.0], as [float(1)] gives it. *)
Definition fone : float := S754_finite false 4503599627370496 (-52).

(** What the proofs need of [1 / 2 ** p]: it is a non-negative finite
    double and multiplying it by [1.0] gives it back. *)
Definition fraction_check (p : Z) : bool :=
  match int_truediv 1 (2 ^ p) with
  | Ok f => nonneg_finite f && float_eqb (SFmul prec emax f fone) f
  | Raise _ => false
  end.

(** The registers of a circuit, quantum ones first. *)
Definition all_regs (qc : Terra.QuantumCircuit) : list Terra.register :=
  Terra.qregs qc ++ Terra.cregs qc.

(** An oracle the framework accepts in [construct_circuit]: its variable
    and output registers are two quantum registers of different names,
    and the name "m" of the measurement register and the names of the two
    registers are not used by the oracle's circuit for other registers. *)
Definition oracle_wf (o : DeutschJozsa.Oracle) : bool :=
  let v := DeutschJozsa.variable_register o in
  let w := DeutschJozsa.output_register o in
  Terra.is_quantum v && Terra.is_quantum w
  && negb (String.eqb (Terra.reg_name v) (Terra.reg_name w))
  && negb (String.eqb (Terra.reg_name v) "m")
  && negb (String.eqb (Terra.reg_name w) "m")
  && forallb (fun r =>
       negb (String.eqb (Terra.reg_name r) "m")
       && (negb (String.eqb (Terra.reg_name r) (Terra.reg_name v)) || Terra.register_eqb r v)
       && (negb (String.eqb (Terra.reg_name r) (Terra.reg_name w)) || Terra.register_eqb r w))
     (all_regs (DeutschJozsa.circuit o)).

(** [n] calls of [construct_circuit] in a row on one instance: the
    objects they return, the instance and the store after the last call. *)
Fixpoint construct_circuit_times (n : nat) (self : DeutschJozsa.t) (hp : Terra.heap)
  : result (list Terra.ref * DeutschJozsa.t * Terra.heap) :=
  match n with
  | O => Ok ([], self, hp)
  | S n' =>
      r <- DeutschJozsa.construct_circuit self hp ;;
      rest <- construct_circuit_times n' (snd (fst r)) (snd r) ;;
      Ok (fst (fst r) :: fst (fst rest), snd (fst rest), snd rest)
  end.

(** The barrier over the qubits of two registers. *)
Definition barrier_on (v w : Terra.register) : Terra.instruction :=
  {| Terra.op_name := "barrier";
     Terra.qargs := Terra.bits_of v ++ Terra.bits_of w;
     Terra.cargs := [] |}.

(** An oracle on two variable qubits and one output qubit. *)
Definition sample_oracle : DeutschJozsa.Oracle :=
  let v := Terra.QuantumRegister 2 "v" in
  let w := Terra.QuantumRegister 1 "o" in
  {| DeutschJozsa.variable_register := v;
     DeutschJozsa.output_register := w;
     DeutschJozsa.circuit :=
       Terra.append (Terra.new_circuit [v; w])
         [{| Terra.op_name := "cx"; Terra.qargs := [(v, 0%nat); (w, 0%nat)];
             Terra.cargs := [] |}] |}.

(** The declaration of a named option in the schema of a configuration. *)
Definition schema_property (cfg : QPE.configuration) (name : string)
  : option QPE.property_schema :=
  option_map snd
    (List.find (fun p => String.eqb (fst p) name)
               (QPE.properties (QPE.input_schema cfg))).

(** What a backend hands back for [num_ancillae] ancillae: a diagonal of
    [2 ^ num_ancillae] entries, or counts, not all absent, of bitstrings of
    [num_ancillae] bits. *)
Definition well_formed (num_ancillae : Z) (res : QPE.backend_result) : bool :=
  match res with
  | QPE.Statevector diag => Z.of_nat (List.length diag) =? 2 ^ num_ancillae
  | QPE.Counts ancilla_counts =>
      negb (Nat.eqb (List.length ancilla_counts) 0)
      && forallb (fun kc => is_bitstring (fst kc)
                            && (Z.of_nat (String.length (fst kc)) =? num_ancillae))
                 ancilla_counts
  end.

(** The double [1 / 2 ** p] when the division returns. *)
Definition fraction (p : Z) : float :=
  match int_truediv 1 (2 ^ p) with
  | Ok f => f
  | Raise _ => S754_nan
  end.

(** The value of a bit character, and the term of a bit at position [p]
    in the decimal fraction. *)
Definition bit_value (c : ascii) : Z := if Ascii.eqb c "1" then 1 else 0.

Definition term (p b : Z) : pynum :=
  PyFloat (if b =? 1 then fraction p else fzero).

Definition terms_from (s : nat) (bits : list Z) : list pynum :=
  map (fun ib => term (1 + Z.of_nat (fst ib)) (snd ib))
      (combine (seq s (List.length bits)) bits).

Definition is_pyfloat (a : pynum) : bool :=
  match a with
  | PyFloat _ => true
  | PyInt _ => false
  end.

(** The options the schema accepts: the three counts at least 1 and the
    expansion mode one of the two declared choices. *)
Definition params_ok (num_time_slices num_ancillae : Z) (expansion_mode : string)
    (expansion_order : Z) : bool :=
  (1 <=? num_time_slices)
  && (String.eqb expansion_mode "suzuki" || String.eqb expansion_mode "trotter")
  && (1 <=? expansion_order) && (1 <=? num_ancillae).

(** Sample data: an operator with the Python coefficients [0.5] and [-3],
    an operator whose Python coefficients are all zero, an operator whose
    coefficients are the [numpy.float64] scalars [0.0] and [-0.0], the
    instance constructed on the first one with two ancillae, and two
    backend results for it. *)
Definition sample_operator : QPE.Operator number :=
  {| QPE.get_flat_pauli_list := [Python (PyFloat fhalf); Python (PyInt (-3))];
     QPE.num_qubits := 1 |}.

Definition zero_operator : QPE.Operator number :=
  {| QPE.get_flat_pauli_list := [Python (PyInt 0); Python (PyFloat fzero)];
     QPE.num_qubits := 1 |}.

Definition numpy_zero_operator : QPE.Operator number :=
  {| QPE.get_flat_pauli_list := [Float64 fzero; Float64 (S754_zero true)];
     QPE.num_qubits := 1 |}.

Definition sample_translation : pynum :=
  PyFloat (S754_finite false 7881299347898368 (-51)).

Definition sample_stretch : pynum :=
  PyFloat (S754_finite false 5146971002709138 (-55)).

Definition sample_qpe : QPE.t number :=
  {| QPE._num_ancillae := 2;
     QPE._ret := <["stretch" := QPE.VNum sample_stretch]>
                 (<["translation" := QPE.VNum sample_translation]> ∅);
     QPE._pauli_list := [Python (PyFloat (S754_finite false 5146971002709138 (-56)));
                         Python (PyFloat (S754_finite true 7720456504063707 (-54)))];
     QPE._binary_fractions := [PyFloat (S754_finite false 4503599627370496 (-53));
                               PyFloat (S754_finite false 4503599627370496 (-54))] |}.

Definition sample_counts : QPE.backend_result :=
  QPE.Counts [("01", 3); ("10", 9); ("11", 9)].

Definition sample_statevector : QPE.backend_result :=
  QPE.Statevector [0%Q; (1 # 4)%Q; (3 # 4)%Q; 0%Q].

(** The registers met while the segments are added: the two registers of
    the oracle and those of its circuit. *)
Definition known (o : DeutschJozsa.Oracle) (r : Terra.register) : Prop :=
  r = DeutschJozsa.variable_register o \/ r = DeutschJozsa.output_register o
  \/ In r (all_regs (DeutschJozsa.circuit o)).

(** What [oracle_wf] says, in propositions. *)
Record wf_facts (o : DeutschJozsa.Oracle) : Prop := {
  wf_var_quantum : Terra.is_quantum (DeutschJozsa.variable_register o) = true;
  wf_out_quantum : Terra.is_quantum (DeutschJozsa.output_register o) = true;
  wf_names : Terra.reg_name (DeutschJozsa.variable_register o)
             <> Terra.reg_name (DeutschJozsa.output_register o);
  wf_var : forall r, known o r ->
           Terra.reg_name r = Terra.reg_name (DeutschJozsa.variable_register o) ->
           r = DeutschJozsa.variable_register o;
  wf_out : forall r, known o r ->
           Terra.reg_name r = Terra.reg_name (DeutschJozsa.output_register o) ->
           r = DeutschJozsa.output_register o;
  wf_m : forall r, known o r -> Terra.reg_name r <> "m"
}.

(** Tuples [(count, key)] compared by their counts only. *)
Definition count_le (a b : Z * string) : Prop := fst a <= fst b.

(** A variational form of two parameters whose circuit is empty, and the
    initial state built on it. *)
Definition sample_var_form : VarFormBased.VariationalForm :=
  {| VarFormBased.num_parameters := 2;
     VarFormBased.vf_construct_circuit := fun _ _ => Ok (Terra.new_circuit []) |}.

Definition sample_initial_state : VarFormBased.t :=
  {| VarFormBased._var_form := sample_var_form;
     VarFormBased._var_form_params := [PyInt 0; PyInt 1] |}.

(** The rational number a finite double denotes. *)
Definition SF2Q (f : float) : Q :=
  match f with
  | S754_finite s m e =>
      ((if s then -1 else 1) * inject_Z (Z.pos m) * Qpower 2 e)%Q
  | _ => 0%Q
  end.

(** The exact value of the binary fraction [0.b1 b2 ...] of a label. *)
Fixpoint exact_fraction (i : Z) (chars : list ascii) : Q :=
  match chars with
  | [] => 0%Q
  | c :: chars' =>
      (inject_Z (bit_value c) / Qpower 2 i + exact_fraction (i + 1) chars')%Q
  end.

(** All the labels of a given length. *)
Fixpoint labels (k : nat) : list string :=
  match k with
  | O => [""]
  | S k' => flat_map (fun s => [String "0" s; String "1" s]) (labels k')
  end.

(** The decoded fraction of a label is a double that denotes the exact
    value of the binary fraction. *)
Definition decodes_exactly (k : nat) (label : string) : bool :=
  match fractions <- mapM QPE.binary_fraction (py_range 1 (Z.of_nat k + 1)) ;;
        QPE.label_decimal fractions label with
  | Ok (PyFloat f) => Qeq_bool (SF2Q f) (exact_fraction 1 (list_ascii_of_string label))
  | _ => false
  end.

(* ================================================================== *)
(** * Deutsch-Jozsa: the run of the algorithm (dj.py, [_run])           *)
(* ================================================================== *)

(** The instance of dj.py together with its result dictionary [_ret]: the
    fields of [DeutschJozsa.t] and the dictionary.  The counts the backend
    returns for the executed circuit are an input of the run. *)
Module DeutschJozsaRun.
Import Terra.

(** The values kept in [_ret]: the circuit object, the counts and the
    answer. *)
Inductive value : Type :=
| VCircuit (c : ref)
| VCounts (measurements : list (string * Z))
| VResult (s : string).

Record t : Type := {
  alg : DeutschJozsa.t;
  _ret : gmap string value
}.

Definition __init__ (oracle : DeutschJozsa.Oracle) : t :=
  {| alg := DeutschJozsa.__init__ oracle; _ret := ∅ |}.

(** [_run]: [measurements] is [execute(qc).get_counts(qc)]. *)
Definition _run (self : t) (hp : heap) (measurements : list (string * Z))
  : result (gmap string value * t * heap) :=
  built <- DeutschJozsa.construct_circuit (alg self) hp ;;
  let qc := fst (fst built) in
  let ret := <["circuit" := VCircuit qc]> (_ret self) in
  let ret := <["measurements" := VCounts measurements]> ret in
  answer <- DeutschJozsa.interpret_measurement measurements ;;
  let ret := <["result" := VResult answer]> ret in
  Ok (ret, {| alg := snd (fst built); _ret := ret |}, snd built).

End DeutschJozsaRun.

(* ================================================================== *)
(** * Vocabulary of the further statements                              *)
(* ================================================================== *)

(** The instruction measuring qubit [i] of [v] into bit [i] of [m]. *)
Definition measure_at (v m : Terra.register) (i : nat) : Terra.instruction :=
  {| Terra.op_name := "measure";
     Terra.qargs := [(v, i)];
     Terra.cargs := [(m, i)] |}.

(** The integer a list of bit characters spells, most significant bit
    first. *)
Definition binary_value (chars : list ascii) : Z :=
  fold_left (fun acc c => 2 * acc + bit_value c) chars 0.

(** The double that denotes [M / 2^k], for [M] of at most 53 bits. *)
Definition dyadic (M k : Z) : float :=
  match M with
  | Z.pos p =>
      let d := Z.pos (digits2_pos p) in
      S754_finite false (Z.to_pos (M * 2 ^ (53 - d))) (d - k - 53)
  | _ => fzero
  end.

(** Tuples [(count, key)] in Python's order. *)
Definition tuple_le (a b : Z * string) : Prop := Np.tuple_leb a b = true.

(** [1 / 2 ** p] denotes exactly [1 / 2^p]. *)
Definition fraction_exact_check (p : Z) : bool :=
  match int_truediv 1 (2 ^ p) with
  | Ok f => Qeq_bool (SF2Q f) (1 / inject_Z (2 ^ p))
  | Raise _ => false
  end.

(** [1 / 2 ** p] is the double of mantissa [2^52] and exponent [-p - 52]. *)
Definition fraction_small_check (p : Z) : bool :=
  float_eqb (fraction p) (S754_finite false 4503599627370496 (- p - 52)).

(** A label of 54 bits whose first and last bits are set. *)
Definition label_54 : string :=
  String "1" (String.append (Np.zeros 52) "1").

(* ================================================================== *)
(** * Properties of the Python arithmetic                               *)
(* ================================================================== *)

(** A chain of binds that returned: each of its steps returned. *)
Ltac bind_inv H :=
  repeat match type of H with
         | bind ?c _ = Ok _ => destruct c; cbn [bind] in H; [|discriminate]
         end.

Section FloatFacts.

Lemma float_eqb_eq (a b : float) : float_eqb a b = true -> a = b.
Proof.
  destruct a as [s1|s1| |s1 m1 e1], b as [s2|s2| |s2 m2 e2]; simpl; try discriminate.
  - intros H. apply Bool.eqb_prop in H. now subst.
  - intros H. apply Bool.eqb_prop in H. now subst.
  - reflexivity.
  - intros H. apply andb_prop in H as [H He]. apply andb_prop in H as [Hs Hm].
    apply Bool.eqb_prop in Hs. apply Pos.eqb_eq in Hm. apply Z.eqb_eq in He.
    now subst.
Qed.

Lemma digits2_pos_size (q : positive) : digits2_pos q = Pos.size q.
Proof. induction q; simpl; congruence. Qed.

Lemma Zdigits2_log2 (q : positive) : Zdigits2 (Zpos q) = Z.log2 (Zpos q) + 1.
Proof.
  destruct q; simpl; rewrite ?digits2_pos_size; lia.
Qed.

Lemma Zdigits2_pow2 (p : Z) : 0 <= p -> Zdigits2 (2 ^ p) = p + 1.
Proof.
  intros Hp. assert (H : 0 < 2 ^ p) by (apply Z.pow_pos_nonneg; lia).
  destruct (2 ^ p) as [|q|q] eqn:E; try lia.
  rewrite Zdigits2_log2, <- E, Z.log2_pow2 by lia. reflexivity.
Qed.

(** Below [2^-1075] the quotient [1 / 2^p] has no bit left: the division
    core returns a zero mantissa and an inexact location below the tie. *)
Lemma SFdiv_core_tiny (p : Z) :
  1076 <= p ->
  SFdiv_core_binary prec emax 1 0 (2 ^ p) 0 = (0, -1074, loc_Inexact Lt).
Proof.
  intros Hp. unfold SFdiv_core_binary.
  rewrite (Zdigits2_pow2 p) by lia.
  change (Zdigits2 1) with 1.
  assert (He : Z.min (fexp prec emax (1 + 0 - (p + 1 + 0))) (0 - 0) = -1074).
  { unfold fexp, emin, prec, emax. lia. }
  rewrite He. change (0 - 0 - -1074) with 1074.
  rewrite Z.shiftl_1_l.
  assert (HK : 0 < 2 ^ 1074) by (apply Z.pow_pos_nonneg; lia).
  assert (HKp : 2 * 2 ^ 1074 < 2 ^ p).
  { change (2 * 2 ^ 1074) with (2 ^ 1 * 2 ^ 1074). rewrite <- Z.pow_add_r by lia.
    apply Z.pow_lt_mono_r; lia. }
  set (K := 2 ^ 1074) in *.
  assert (Hd : Z.div_eucl K (2 ^ p) = (0, K)).
  { pose proof (Z.div_small K (2 ^ p)) as Hq. pose proof (Z.mod_small K (2 ^ p)) as Hr.
    unfold Z.div, Z.modulo in Hq, Hr.
    destruct (Z.div_eucl K (2 ^ p)) as [q r]. simpl in Hq, Hr.
    rewrite Hq, Hr by lia. reflexivity. }
  rewrite Hd.
  unfold new_location. rewrite Z.even_pow by lia.
  change (Z.even 2) with true. cbv iota.
  unfold new_location_even.
  assert (EK : (K =? 0) = false) by (apply Z.eqb_neq; lia).
  assert (Hc : (2 * K ?= 2 ^ p) = Lt) by (apply Z.compare_lt_iff; exact HKp).
  rewrite EK, Hc. reflexivity.
Qed.

Lemma int_truediv_tiny (p : Z) :
  1076 <= p -> int_truediv 1 (2 ^ p) = Ok fzero.
Proof.
  intros Hp. unfold int_truediv.
  assert (H : 0 < 2 ^ p) by (apply Z.pow_pos_nonneg; lia).
  destruct (2 ^ p =? 0) eqn:E0; [apply Z.eqb_eq in E0; lia|].
  pose proof (SFdiv_core_tiny p Hp) as Hc.
  destruct (2 ^ p) as [|q|q] eqn:E; try lia.
  simpl Z2SF. unfold SFdiv. rewrite Hc. reflexivity.
Qed.

(** Up to [2^-1075] the quotients are checked one by one. *)
Lemma fraction_check_small :
  forallb fraction_check (py_range 1 1076) = true.
Proof. vm_compute. reflexivity. Qed.

Lemma py_range_In (a b i : Z) : a <= i < b -> In i (py_range a b).
Proof.
  intros H. unfold py_range. apply in_map_iff.
  exists (Z.to_nat (i - a)). split; [lia|].
  apply in_seq. lia.
Qed.

Lemma fraction_check_all (p : Z) : 1 <= p -> fraction_check p = true.
Proof.
  intros Hp. destruct (Z_lt_le_dec p 1076) as [Hs|Hl].
  - pose proof fraction_check_small as H.
    rewrite List.forallb_forall in H. apply H. apply py_range_In. lia.
  - unfold fraction_check. rewrite int_truediv_tiny by lia. reflexivity.
Qed.

End FloatFacts.

(* ================================================================== *)
(** * Deutsch-Jozsa: the classification of the measurement              *)
(* ================================================================== *)

Section InterpretMeasurement.

Lemma max_from_In {A : Type} (key : A -> Z) (l : list A) (best : A) :
  In (Py.max_from key best l) (best :: l).
Proof.
  revert best. induction l as [|a l IH]; intros best; simpl.
  - now left.
  - destruct (IH (if key best <? key a then a else best)) as [H|H].
    + destruct (key best <? key a); [right; left|left]; exact H.
    + right; right; exact H.
Qed.

Lemma max_from_ge {A : Type} (key : A -> Z) (l : list A) (best : A) :
  forall a, In a (best :: l) -> key a <= key (Py.max_from key best l).
Proof.
  revert best. induction l as [|b l IH]; intros best a Ha; simpl.
  - destruct Ha as [ <- | [] ]. lia.
  - destruct (key best <? key b) eqn:E.
    + apply Z.ltb_lt in E. destruct Ha as [ <- | [ <- | Ha ] ].
      * specialize (IH b b (or_introl eq_refl)). lia.
      * apply IH. now left.
      * apply IH. now right.
    + apply Z.ltb_ge in E. destruct Ha as [ <- | [ <- | Ha ] ].
      * apply IH. now left.
      * specialize (IH best best (or_introl eq_refl)). lia.
      * apply IH. now right.
Qed.

Lemma is_bit_cases (c : ascii) : is_bit c = true -> c = "0"%char \/ c = "1"%char.
Proof.
  unfold is_bit. intros H. apply orb_prop in H as [H|H]; apply Ascii.eqb_eq in H; auto.
Qed.

Lemma lstrip_bit (l : list ascii) :
  Forall (fun c => is_bit c = true) l -> lstrip l = l.
Proof.
  intros H. destruct H as [|c l Hc Hl]; [reflexivity|].
  simpl. destruct (is_bit_cases c Hc) as [-> | ->]; reflexivity.
Qed.

Lemma strip_bits (l : list ascii) :
  Forall (fun c => is_bit c = true) l -> strip l = l.
Proof.
  intros H. unfold strip. rewrite (lstrip_bit l H).
  rewrite lstrip_bit by (apply Forall_rev; exact H).
  apply rev_involutive.
Qed.

(** The digits of a bitstring parse, and to zero exactly when no bit is set. *)
Lemma parse_digits_bits (l : list ascii) :
  Forall (fun c => is_bit c = true) l ->
  forall acc prev, 0 <= acc -> (l <> [] \/ prev = true) ->
  exists v, parse_digits acc prev l = Some v /\ 0 <= v /\
            (v = 0 <-> acc = 0 /\ forallb (Ascii.eqb "0"%char) l = true).
Proof.
  induction 1 as [|c l Hc Hl IH]; intros acc prev Hacc Hne.
  - destruct Hne as [Hne | ->]; [congruence|]. simpl. exists acc. intuition.
  - destruct (is_bit_cases c Hc) as [-> | ->].
    + destruct (IH (10 * acc + 0) true ltac:(lia) (or_intror eq_refl))
        as (v & Hv & Hv0 & Hiff).
      exists v. split; [exact Hv|]. split; [exact Hv0|].
      rewrite Hiff. simpl. intuition lia.
    + destruct (IH (10 * acc + 1) true ltac:(lia) (or_intror eq_refl))
        as (v & Hv & Hv0 & Hiff).
      exists v. split; [exact Hv|]. split; [exact Hv0|].
      rewrite Hiff. simpl. intuition (try lia; try discriminate).
Qed.

Lemma forallb_is_bit (l : list ascii) :
  forallb is_bit l = true -> Forall (fun c => is_bit c = true) l.
Proof. intros H. apply List.Forall_forall. now apply List.forallb_forall. Qed.

Lemma is_bitstring_chars (s : string) :
  is_bitstring s = true ->
  list_ascii_of_string s <> [] /\
  Forall (fun c => is_bit c = true) (list_ascii_of_string s).
Proof.
  unfold is_bitstring. destruct (list_ascii_of_string s) as [|c l]; [discriminate|].
  intros H. split; [discriminate|]. now apply forallb_is_bit.
Qed.

Lemma py_int_bitstring (s : string) :
  is_bitstring s = true ->
  exists v, py_int s = Ok v /\ ((v =? 0) = all_zeros s).
Proof.
  intros Hs. destruct (is_bitstring_chars s Hs) as [Hne Hbits].
  unfold py_int, all_zeros. rewrite (strip_bits _ Hbits).
  destruct (parse_digits_bits _ Hbits 0 false ltac:(lia) (or_introl Hne))
    as (v & Hv & _ & Hiff).
  exists v. split.
  - destruct (list_ascii_of_string s) as [|c l] eqn:E; [congruence|].
    inversion Hbits as [|? ? Hc _]; subst.
    destruct (is_bit_cases c Hc) as [-> | ->]; cbn [Ascii.eqb]; simpl;
      simpl in Hv; rewrite Hv; reflexivity.
  - destruct (forallb _ _) eqn:E.
    + apply Z.eqb_eq. apply Hiff. auto.
    + apply Z.eqb_neq. intros H0. apply Hiff in H0 as [_ H0]. congruence.
Qed.

Lemma interpret_measurement_selects (measurements : list (string * Z)) :
  measurements <> [] ->
  Forall (fun kc => is_bitstring (fst kc) = true) measurements ->
  exists top count,
    In (top, count) measurements /\
    (forall k c, In (k, c) measurements -> c <= count) /\
    DeutschJozsa.interpret_measurement measurements =
      Ok (if all_zeros top then "constant" else "balanced").
Proof.
  intros Hne Hkeys. destruct measurements as [|kc l]; [congruence|].
  pose proof (max_from_In snd l kc) as Hin.
  pose proof (max_from_ge snd l kc) as Hge.
  set (top := Py.max_from snd kc l) in *.
  exists (fst top), (snd top). split; [|split].
  - destruct top; exact Hin.
  - intros k c Hk. exact (Hge (k, c) Hk).
  - unfold DeutschJozsa.interpret_measurement. simpl py_max. fold top. simpl bind.
    rewrite List.Forall_forall in Hkeys.
    destruct (py_int_bitstring (fst top) (Hkeys top Hin)) as (v & Hv & Hz).
    rewrite Hv. simpl. rewrite Hz. now destruct (all_zeros (fst top)).
Qed.

(** C1. For every non-empty mapping from measured bitstrings to counts,
    [interpret_measurement] selects a bitstring whose count is the maximum
    of the mapping and returns "constant" when that bitstring is the
    all-zero string and "balanced" when it is any other bitstring.  In
    particular, when one bitstring has a count above all the others, the
    answer is "constant" if it is the all-zero string and "balanced"
    otherwise. *)
Theorem interpret_measurement_top (measurements : list (string * Z)) :
  measurements <> [] ->
  Forall (fun kc => is_bitstring (fst kc) = true) measurements ->
  (exists top count,
     In (top, count) measurements /\
     (forall k c, In (k, c) measurements -> c <= count) /\
     DeutschJozsa.interpret_measurement measurements =
       Ok (if all_zeros top then "constant" else "balanced")) /\
  (forall k c,
     In (k, c) measurements ->
     (forall k' c', In (k', c') measurements -> k' <> k -> c' < c) ->
     DeutschJozsa.interpret_measurement measurements =
       Ok (if all_zeros k then "constant" else "balanced")).
Proof.
  intros Hne Hkeys.
  destruct (interpret_measurement_selects measurements Hne Hkeys)
    as (top & count & Hin & Hmax & Hres).
  split; [now exists top, count|].
  intros k c Hk Hstrict.
  destruct (string_dec top k) as [-> | Hneq]; [exact Hres|].
  specialize (Hstrict top count Hin Hneq). specialize (Hmax k c Hk). lia.
Qed.

Lemma interpret_measurement_top_witness :
  DeutschJozsa.interpret_measurement [("00", 7); ("01", 2); ("10", 1)] = Ok "constant" /\
  DeutschJozsa.interpret_measurement [("00", 1); ("01", 2); ("10", 7)] = Ok "balanced".
Proof.
  split.
  - destruct (interpret_measurement_top [("00", 7); ("01", 2); ("10", 1)]) as [_ H].
    + discriminate.
    + repeat constructor.
    + apply (H "00" 7).
      * left. reflexivity.
      * intros k' c' [E | [E | [E | []]]] Hk; inversion E; subst; try lia; congruence.
  - destruct (interpret_measurement_top [("00", 1); ("01", 2); ("10", 7)]) as [_ H].
    + discriminate.
    + repeat constructor.
    + apply (H "10" 7).
      * right. right. left. reflexivity.
      * intros k' c' [E | [E | [E | []]]] Hk; inversion E; subst; try lia; congruence.
Defined.

(** With equal counts the first item of the mapping wins. *)
Example interpret_measurement_tie :
  DeutschJozsa.interpret_measurement [("00", 5); ("01", 5)] = Ok "constant" /\
  DeutschJozsa.interpret_measurement [("01", 5); ("00", 5)] = Ok "balanced".
Proof. split; reflexivity. Qed.

End InterpretMeasurement.

(* ================================================================== *)
(** * The initial state built on a variational form                     *)
(* ================================================================== *)

Section VarFormBasedFacts.

Import VarFormBased.

(** C4. The constructor fails, with its construction-failure error, if and
    only if the declared number of parameters of the variational form
    differs from the length of the parameter list; it succeeds, storing
    the variational form and the parameters, if and only if they agree. *)
Theorem VarFormBased_init_iff (var_form : VariationalForm) (params : list pynum) :
  ((exists e, __init__ var_form params = Raise e) <->
     num_parameters var_form <> Z.of_nat (List.length params)) /\
  (__init__ var_form params = Raise RuntimeError <->
     num_parameters var_form <> Z.of_nat (List.length params)) /\
  (__init__ var_form params =
     Ok {| _var_form := var_form; _var_form_params := params |} <->
     num_parameters var_form = Z.of_nat (List.length params)).
Proof.
  unfold __init__.
  destruct (num_parameters var_form =? Z.of_nat (List.length params)) eqn:E; simpl.
  - apply Z.eqb_eq in E. split; [|split]; split; intros H; try congruence.
    destruct H as [e He]. discriminate.
  - apply Z.eqb_neq in E. split; [|split]; split; intros H; try congruence.
    now exists RuntimeError.
Qed.

(** C5, as stated, does not hold: asking for the vector representation
    does not raise [ValueError]. *)
Lemma construct_circuit_vector_not_ValueError :
  __init__ sample_var_form [PyInt 0; PyInt 1] = Ok sample_initial_state /\
  construct_circuit sample_initial_state "vector" None = Raise RuntimeError /\
  construct_circuit sample_initial_state "vector" None <> Raise ValueError.
Proof. repeat split. discriminate. Qed.

(** C5, amended. Mode 'vector' raises [RuntimeError]; mode 'circuit'
    returns the circuit of the variational form for the stored parameters;
    every other mode raises [ValueError]. *)
Theorem construct_circuit_modes (self : t) (register : option Terra.register) (mode : string) :
  construct_circuit self "vector" register = Raise RuntimeError /\
  construct_circuit self "circuit" register =
    vf_construct_circuit (_var_form self) (_var_form_params self) register /\
  (mode <> "vector" -> mode <> "circuit" ->
   construct_circuit self mode register = Raise ValueError).
Proof.
  split; [reflexivity|]. split; [reflexivity|].
  intros Hv Hc. unfold construct_circuit.
  apply String.eqb_neq in Hv, Hc. now rewrite Hv, Hc.
Qed.

Lemma construct_circuit_modes_witness :
  construct_circuit sample_initial_state "vector" None = Raise RuntimeError /\
  construct_circuit sample_initial_state "circuit" None = Ok (Terra.new_circuit []) /\
  construct_circuit sample_initial_state "matrix" None = Raise ValueError.
Proof.
  destruct (construct_circuit_modes sample_initial_state None "matrix") as (Hv & Hc & Ho).
  split; [exact Hv|]. split; [exact Hc|].
  apply Ho; discriminate.
Defined.

End VarFormBasedFacts.

(* ================================================================== *)
(** * Deutsch-Jozsa: the construction of the circuit                    *)
(* ================================================================== *)

Section ConstructCircuit.

Import Terra DeutschJozsa.

Lemma reg_kind_eqb_eq (a b : reg_kind) : reg_kind_eqb a b = true <-> a = b.
Proof. destruct a, b; simpl; split; congruence. Qed.

Lemma register_eqb_eq (a b : register) : register_eqb a b = true <-> a = b.
Proof.
  unfold register_eqb. destruct a as [k1 n1 s1], b as [k2 n2 s2]; simpl.
  rewrite !andb_true_iff, reg_kind_eqb_eq, String.eqb_eq, Nat.eqb_eq.
  split; [intros [[-> ->] ->]; reflexivity | intros H; inversion H; auto].
Qed.

Lemma compatible_regs_intro (l1 l2 : list register) :
  (forall r1 r2, In r1 l1 -> In r2 l2 -> reg_name r2 = reg_name r1 -> r1 = r2) ->
  compatible_regs l1 l2 = true.
Proof.
  intros H. unfold compatible_regs.
  apply List.forallb_forall. intros r1 H1.
  apply List.forallb_forall. intros r2 H2.
  destruct (String.eqb (reg_name r2) (reg_name r1)) eqn:E; [|reflexivity].
  apply String.eqb_eq in E. simpl. apply register_eqb_eq. now apply H.
Qed.

Lemma In_merge_regs (l1 l2 : list register) (r : register) :
  In r (merge_regs l1 l2) -> In r l1 \/ In r l2.
Proof.
  unfold merge_regs. intros H. apply in_app_or in H as [H|H]; [now left|].
  apply filter_In in H as [H _]. now right.
Qed.

(** Adding two compatible circuits succeeds, appends the instructions and
    brings no register from elsewhere. *)
Lemma add_ok (lhs rhs : QuantumCircuit) :
  (forall r1 r2, In r1 (all_regs lhs) -> In r2 (all_regs rhs) ->
                 reg_name r2 = reg_name r1 -> r1 = r2) ->
  exists qc, add lhs rhs = Ok qc /\
             data qc = data lhs ++ data rhs /\
             (forall r, In r (all_regs qc) -> In r (all_regs lhs) \/ In r (all_regs rhs)).
Proof.
  intros H. unfold add. fold (all_regs lhs) (all_regs rhs).
  rewrite (compatible_regs_intro _ _ H).
  eexists. split; [reflexivity|]. split; [reflexivity|].
  unfold all_regs. simpl. intros r Hr.
  apply in_app_or in Hr as [Hr|Hr]; apply In_merge_regs in Hr as [Hr|Hr];
    rewrite !in_app_iff; auto.
Qed.

Lemma oracle_wf_facts (o : Oracle) : oracle_wf o = true -> wf_facts o.
Proof.
  unfold oracle_wf. rewrite !andb_true_iff, !negb_true_iff, !String.eqb_neq.
  intros [[[[[Hv Hw] Hvw] Hvm] Hwm] Hall].
  rewrite List.forallb_forall in Hall.
  assert (Hr : forall r, In r (all_regs (circuit o)) ->
            reg_name r <> "m" /\
            (reg_name r = reg_name (variable_register o) -> r = variable_register o) /\
            (reg_name r = reg_name (output_register o) -> r = output_register o)).
  { intros r Hin. specialize (Hall r Hin).
    rewrite !andb_true_iff, !orb_true_iff, !negb_true_iff, !String.eqb_neq,
      !register_eqb_eq in Hall.
    destruct Hall as [[Hm Hrv] Hrw]. split; [exact Hm|].
    split; intros E; [destruct Hrv as [Hrv|Hrv]|destruct Hrw as [Hrw|Hrw]];
      congruence. }
  constructor; auto.
  - intros r [-> | [-> | Hin]] E; [reflexivity|congruence|]. now apply (Hr r Hin).
  - intros r [-> | [-> | Hin]] E; [congruence|reflexivity|]. now apply (Hr r Hin).
  - intros r [-> | [-> | Hin]]; [exact Hvm|exact Hwm|]. now apply (Hr r Hin).
Qed.

Lemma quantum_not_classical (r : register) :
  is_quantum r = true -> is_classical r = false.
Proof. unfold is_quantum, is_classical. now destruct (kind r). Qed.

Lemma all_regs_pre (o : Oracle) :
  wf_facts o -> all_regs (qc_preoracle o) = [variable_register o; output_register o].
Proof.
  intros [Hv Hw _ _ _ _]. unfold all_regs, qc_preoracle. simpl.
  rewrite Hv, Hw, !quantum_not_classical by assumption. reflexivity.
Qed.

Lemma all_regs_post (o : Oracle) :
  wf_facts o -> all_regs (qc_postoracle o) = [variable_register o; output_register o].
Proof.
  intros [Hv Hw _ _ _ _]. unfold all_regs, qc_postoracle. simpl.
  rewrite Hv, Hw, !quantum_not_classical by assumption. reflexivity.
Qed.

Lemma all_regs_measurement (o : Oracle) :
  wf_facts o -> all_regs (qc_measurement o) = [variable_register o; measurement_cr o].
Proof.
  intros [Hv _ _ _ _ _]. unfold all_regs, qc_measurement. simpl.
  rewrite Hv, quantum_not_classical by assumption. reflexivity.
Qed.

(** The sum of the four segments exists for an accepted oracle. *)
Lemma segments_add (o : Oracle) :
  oracle_wf o = true ->
  exists s1 s2 s3,
    add (qc_preoracle o) (qc_oracle o) = Ok s1 /\
    add s1 (qc_postoracle o) = Ok s2 /\
    add s2 (qc_measurement o) = Ok s3 /\
    data s3 = data (qc_preoracle o) ++ data (circuit o)
              ++ data (qc_postoracle o) ++ data (qc_measurement o).
Proof.
  intros Hwf. apply oracle_wf_facts in Hwf.
  pose proof (all_regs_pre o Hwf) as Rpre.
  pose proof (all_regs_post o Hwf) as Rpost.
  pose proof (all_regs_measurement o Hwf) as Rmeas.
  destruct (add_ok (qc_preoracle o) (qc_oracle o)) as (s1 & E1 & D1 & K1).
  { rewrite Rpre. intros r1 r2 [ <- | [ <- | [] ] ] H2 E.
    - symmetry. apply (wf_var o Hwf); [right; right; exact H2|exact E].
    - symmetry. apply (wf_out o Hwf); [right; right; exact H2|exact E]. }
  assert (Kn1 : forall r, In r (all_regs s1) -> known o r).
  { intros r Hr. destruct (K1 r Hr) as [H|H].
    - rewrite Rpre in H. destruct H as [ <- | [ <- | [] ] ]; [left|right; left]; reflexivity.
    - right; right; exact H. }
  destruct (add_ok s1 (qc_postoracle o)) as (s2 & E2 & D2 & K2).
  { rewrite Rpost. intros r1 r2 H1 [ <- | [ <- | [] ] ] E.
    - apply (wf_var o Hwf); [now apply Kn1|now symmetry].
    - apply (wf_out o Hwf); [now apply Kn1|now symmetry]. }
  assert (Kn2 : forall r, In r (all_regs s2) -> known o r).
  { intros r Hr. destruct (K2 r Hr) as [H|H]; [now apply Kn1|].
    rewrite Rpost in H. destruct H as [ <- | [ <- | [] ] ]; [left|right; left]; reflexivity. }
  destruct (add_ok s2 (qc_measurement o)) as (s3 & E3 & D3 & K3).
  { rewrite Rmeas. intros r1 r2 H1 [ <- | [ <- | [] ] ] E.
    - apply (wf_var o Hwf); [now apply Kn2|now symmetry].
    - exfalso. apply (wf_m o Hwf r1 (Kn2 r1 H1)). now symmetry. }
  exists s1, s2, s3. repeat (split; [assumption|]).
  rewrite D3, D2, D1. unfold qc_oracle. now rewrite <- !app_assoc.
Qed.

(** The first call: six circuit objects are created, the last one is the
    sum of the segments and is the one stored and returned. *)
Lemma construct_circuit_first (o : Oracle) (hp : heap) :
  oracle_wf o = true ->
  exists s1 s2 s3,
    add (qc_preoracle o) (qc_oracle o) = Ok s1 /\
    add s1 (qc_postoracle o) = Ok s2 /\
    add s2 (qc_measurement o) = Ok s3 /\
    data s3 = data (qc_preoracle o) ++ data (circuit o)
              ++ data (qc_postoracle o) ++ data (qc_measurement o) /\
    construct_circuit (__init__ o) hp =
      Ok ((List.length hp + 5)%nat,
          {| _oracle := o; _circuit := Some (List.length hp + 5)%nat |},
          hp ++ [qc_preoracle o; qc_postoracle o; qc_measurement o; s1; s2; s3]).
Proof.
  intros Hwf. destruct (segments_add o Hwf) as (s1 & s2 & s3 & E1 & E2 & E3 & D).
  exists s1, s2, s3. repeat (split; [assumption|]).
  unfold construct_circuit, __init__, alloc. simpl _circuit. simpl _oracle.
  cbv iota beta. rewrite E1. simpl bind. rewrite E2. simpl bind. rewrite E3. simpl bind.
  rewrite !length_app. simpl List.length.
  rewrite <- !app_assoc. simpl app.
  replace (List.length hp + 1 + 1 + 1 + 1 + 1)%nat with (List.length hp + 5)%nat by lia.
  reflexivity.
Qed.

(** C7. On a fresh instance [construct_circuit] returns the sum, in this
    order, of four segments: the state preparation (Hadamards on the
    variable register, X then Hadamards on the output register, closed by
    a barrier), the circuit of the oracle, the interference (Hadamards on
    the variable register, closed by a barrier) and the measurement of the
    variable register into a classical register of the same size. *)
Theorem construct_circuit_four_segments (o : Oracle) (hp : heap) :
  oracle_wf o = true ->
  exists c self' hp' qc,
    construct_circuit (__init__ o) hp = Ok (c, self', hp') /\
    deref hp' c = Some qc /\
    (s1 <- add (qc_preoracle o) (qc_oracle o) ;;
     s2 <- add s1 (qc_postoracle o) ;;
     add s2 (qc_measurement o)) = Ok qc /\
    data qc = data (qc_preoracle o) ++ data (circuit o)
              ++ data (qc_postoracle o) ++ data (qc_measurement o) /\
    data (qc_preoracle o) =
      map (gate_on "h") (bits_of (variable_register o))
      ++ map (gate_on "x") (bits_of (output_register o))
      ++ map (gate_on "h") (bits_of (output_register o))
      ++ [barrier_on (variable_register o) (output_register o)] /\
    data (qc_postoracle o) =
      map (gate_on "h") (bits_of (variable_register o))
      ++ [barrier_on (variable_register o) (output_register o)] /\
    data (qc_measurement o) =
      map measure_bit (combine (bits_of (variable_register o))
                               (bits_of (measurement_cr o))) /\
    kind (measurement_cr o) = Classical /\
    reg_size (measurement_cr o) = reg_size (variable_register o) /\
    List.length (data (qc_measurement o)) = reg_size (variable_register o).
Proof.
  intros Hwf.
  destruct (construct_circuit_first o hp Hwf) as (s1 & s2 & s3 & E1 & E2 & E3 & D & E).
  pose proof (oracle_wf_facts o Hwf) as [Hv Hw _ _ _ _].
  eexists _, _, _, s3. split; [exact E|].
  split.
  { unfold deref. rewrite nth_error_app2 by lia.
    replace (List.length hp + 5 - List.length hp)%nat with 5%nat by lia. reflexivity. }
  split; [rewrite E1; simpl; rewrite E2; simpl; exact E3|].
  split; [exact D|].
  split.
  { unfold qc_preoracle, barrier, h, x, append, barrier_on. simpl.
    rewrite Hv, Hw. simpl. rewrite app_nil_r, <- !app_assoc. reflexivity. }
  split.
  { unfold qc_postoracle, barrier, h, append, barrier_on. simpl.
    rewrite Hv, Hw. simpl. rewrite app_nil_r. reflexivity. }
  split; [reflexivity|]. split; [reflexivity|]. split; [reflexivity|].
  unfold qc_measurement, measure, append, bits_of. simpl.
  rewrite List.length_map, List.length_combine, !List.length_map, !List.length_seq.
  apply Nat.min_id.
Qed.

Lemma construct_circuit_four_segments_witness :
  exists c self' hp' qc,
    construct_circuit (__init__ sample_oracle) [] = Ok (c, self', hp') /\
    deref hp' c = Some qc /\
    List.map op_name (data qc) =
      ["h"; "h"; "x"; "h"; "barrier"; "cx"; "h"; "h"; "barrier"; "measure"; "measure"].
Proof.
  destruct (construct_circuit_four_segments sample_oracle [] eq_refl)
    as (c & self' & hp' & qc & E & Hd & _ & D & _).
  exists c, self', hp', qc. split; [exact E|]. split; [exact Hd|].
  rewrite D. reflexivity.
Defined.

Lemma construct_circuit_stored (self : t) (c : ref) (hp : heap) :
  _circuit self = Some c -> construct_circuit self hp = Ok (c, self, hp).
Proof. intros H. unfold construct_circuit. now rewrite H. Qed.

Lemma construct_circuit_times_stored (n : nat) (self : t) (c : ref) (hp : heap) :
  _circuit self = Some c ->
  construct_circuit_times n self hp = Ok (repeat c n, self, hp).
Proof.
  intros H. induction n as [|n IH]; [reflexivity|].
  simpl. rewrite (construct_circuit_stored self c hp H). simpl. rewrite IH. reflexivity.
Qed.

(** C9. The first call of [construct_circuit] on an instance builds the
    circuit, as a new object of the store, and stores it in the instance;
    every later call returns this same object, creates no object and
    leaves the instance as it is: any number of calls in a row amounts to
    the first one. *)
Theorem construct_circuit_cached (o : Oracle) (hp : heap) :
  oracle_wf o = true ->
  exists c self1 hp1,
    construct_circuit (__init__ o) hp = Ok (c, self1, hp1) /\
    _circuit self1 = Some c /\
    (List.length hp <= c)%nat /\ is_Some (deref hp1 c) /\
    (forall hp2, construct_circuit self1 hp2 = Ok (c, self1, hp2)) /\
    (forall n, construct_circuit_times (S n) (__init__ o) hp =
               Ok (repeat c (S n), self1, hp1)).
Proof.
  intros Hwf.
  destruct (construct_circuit_first o hp Hwf) as (s1 & s2 & s3 & _ & _ & _ & _ & E).
  eexists _, _, _. split; [exact E|]. split; [reflexivity|].
  split; [lia|]. split.
  { exists s3. unfold deref. rewrite nth_error_app2 by lia.
    replace (List.length hp + 5 - List.length hp)%nat with 5%nat by lia. reflexivity. }
  split.
  - intros hp2. now apply construct_circuit_stored.
  - intros n. cbn [construct_circuit_times]. rewrite E. simpl.
    rewrite (construct_circuit_times_stored n _ (List.length hp + 5)%nat) by reflexivity.
    reflexivity.
Qed.

Lemma construct_circuit_cached_witness :
  exists c self1 hp1,
    construct_circuit (__init__ sample_oracle) [] = Ok (c, self1, hp1) /\
    construct_circuit self1 hp1 = Ok (c, self1, hp1) /\
    construct_circuit_times 3 (__init__ sample_oracle) [] = Ok ([c; c; c], self1, hp1).
Proof.
  destruct (construct_circuit_cached sample_oracle [] eq_refl)
    as (c & self1 & hp1 & E & _ & _ & _ & Hagain & Htimes).
  exists c, self1, hp1. split; [exact E|]. split; [apply Hagain|apply (Htimes 2%nat)].
Defined.

End ConstructCircuit.

(* ================================================================== *)
(** * Phase estimation: the binary fractions and the decoding           *)
(* ================================================================== *)

Section Decoding.

Import QPE.

Lemma mapM_ok {A B : Type} (f : A -> result B) (g : A -> B) (l : list A) :
  (forall a, In a l -> f a = Ok (g a)) -> mapM f l = Ok (map g l).
Proof.
  induction l as [|a l IH]; intros H; [reflexivity|].
  simpl. rewrite (H a (or_introl eq_refl)). simpl.
  rewrite IH by (intros b Hb; apply H; now right). reflexivity.
Qed.

Lemma fraction_facts (p : Z) :
  1 <= p ->
  int_truediv 1 (2 ^ p) = Ok (fraction p) /\
  nonneg_finite (fraction p) = true /\
  SFmul prec emax (fraction p) fone = fraction p.
Proof.
  intros Hp. pose proof (fraction_check_all p Hp) as H.
  unfold fraction_check in H. unfold fraction.
  destruct (int_truediv 1 (2 ^ p)) as [f|e]; [|discriminate].
  apply andb_prop in H as [Hn Hm]. apply float_eqb_eq in Hm. auto.
Qed.

Lemma binary_fraction_ok (p : Z) :
  1 <= p -> binary_fraction p = Ok (PyFloat (fraction p)).
Proof.
  intros Hp. unfold binary_fraction, py_truediv.
  destruct (fraction_facts p Hp) as (E & _ & _). rewrite E. reflexivity.
Qed.

Lemma py_range_seq (n : Z) :
  py_range 1 (n + 1) = map (fun i => 1 + Z.of_nat i) (seq 0 (Z.to_nat n)).
Proof. unfold py_range. do 2 f_equal. lia. Qed.

Lemma In_py_range (a b i : Z) : In i (py_range a b) -> a <= i < b.
Proof.
  unfold py_range. intros H. apply in_map_iff in H as (k & <- & Hk).
  apply in_seq in Hk. lia.
Qed.

(** The list [_binary_fractions] the constructor computes. *)
Lemma binary_fractions_ok (n : Z) :
  mapM binary_fraction (py_range 1 (n + 1)) =
  Ok (map (fun i => PyFloat (fraction (1 + Z.of_nat i))) (seq 0 (Z.to_nat n))).
Proof.
  rewrite (mapM_ok _ (fun p => PyFloat (fraction p))).
  - rewrite py_range_seq, map_map. reflexivity.
  - intros p Hp. apply In_py_range in Hp. apply binary_fraction_ok. lia.
Qed.

Lemma py_int_bit (c : ascii) :
  is_bit c = true -> py_int (String c EmptyString) = Ok (bit_value c).
Proof. intros H. destruct (is_bit_cases c H) as [-> | ->]; reflexivity. Qed.

Lemma label_bits (l : list ascii) :
  Forall (fun c => is_bit c = true) l ->
  mapM (fun n => py_int (String n EmptyString)) l = Ok (map bit_value l).
Proof.
  intros H. apply mapM_ok. intros c Hc. apply py_int_bit.
  rewrite List.Forall_forall in H. now apply H.
Qed.

Lemma bit_value_cases (c : ascii) : bit_value c = 0 \/ bit_value c = 1.
Proof. unfold bit_value. destruct (Ascii.eqb c "1"); auto. Qed.

(** The product [fraction * bit] of the code and the quotient
    [bit / 2^p] of the formula are the same double. *)
Lemma code_term (p b : Z) :
  1 <= p -> b = 0 \/ b = 1 ->
  py_mul (PyFloat (fraction p)) (PyInt b) = Ok (term p b).
Proof.
  intros Hp Hb. destruct (fraction_facts p Hp) as (_ & Hn & Hm).
  destruct Hb as [-> | ->]; unfold py_mul, term, to_float, bind.
  - change (float_of_int 0) with (Ok fzero). cbv beta iota.
    destruct (fraction p) as [[]|[]| |[] m e]; try discriminate; reflexivity.
  - change (float_of_int 1) with (Ok fone). cbv beta iota. now rewrite Hm.
Qed.

Lemma terms_from_cons (s : nat) (b : Z) (bits : list Z) :
  terms_from s (b :: bits) = term (1 + Z.of_nat s) b :: terms_from (S s) bits.
Proof. reflexivity. Qed.

Lemma code_terms (bits : list Z) :
  Forall (fun b => b = 0 \/ b = 1) bits ->
  forall s N, (List.length bits <= N)%nat ->
  mapM (fun t : pynum * Z => py_mul (fst t) (PyInt (snd t)))
       (combine (map (fun i => PyFloat (fraction (1 + Z.of_nat i))) (seq s N)) bits)
  = Ok (terms_from s bits).
Proof.
  induction 1 as [|b bits Hb Hbits IH]; intros s N HN.
  - destruct N; reflexivity.
  - destruct N as [|N]; [simpl in HN; lia|].
    rewrite terms_from_cons. cbn [seq map combine mapM fst snd].
    rewrite code_term by (auto; lia). cbn [bind].
    rewrite IH by (simpl in HN; lia). reflexivity.
Qed.

Lemma terms_from_float (bits : list Z) (s : nat) :
  forallb is_pyfloat (terms_from s bits) = true.
Proof.
  unfold terms_from. apply List.forallb_forall. intros x Hx.
  apply in_map_iff in Hx as (ib & <- & _). reflexivity.
Qed.

(** A sum of doubles never raises, and is a double unless nothing is added. *)
Lemma sum_from_floats (l : list pynum) :
  forallb is_pyfloat l = true ->
  forall acc, (exists a, to_float acc = Ok a) ->
  exists d, sum_from acc l = Ok d /\ (l <> [] -> is_pyfloat d = true).
Proof.
  induction l as [|x l IH]; intros Hl acc Hacc.
  - exists acc. split; [reflexivity|congruence].
  - simpl in Hl. apply andb_prop in Hl as [Hx Hl].
    destruct x as [z|f]; [discriminate|]. destruct Hacc as [a Ha].
    assert (E : py_add acc (PyFloat f) = Ok (PyFloat (SFadd prec emax a f))).
    { unfold py_add. destruct acc; simpl in *; rewrite ?Ha; try reflexivity.
      injection Ha as ->. reflexivity. }
    simpl. rewrite E. simpl.
    destruct (IH Hl (PyFloat (SFadd prec emax a f)) (ex_intro _ _ eq_refl)) as (d & Hd & Hf).
    exists d. split; [exact Hd|]. intros _.
    destruct l; [simpl in Hd; injection Hd as <-; reflexivity|apply Hf; discriminate].
Qed.

(** The decoding of a label of bits, no longer than the list of fractions,
    returns, and returns a double unless the label is empty. *)
Lemma label_decimal_formula (n : Z) (label : string) :
  Forall (fun c => is_bit c = true) (list_ascii_of_string label) ->
  (String.length label <= Z.to_nat n)%nat ->
  exists decimal,
    label_decimal
      (map (fun i => PyFloat (fraction (1 + Z.of_nat i))) (seq 0 (Z.to_nat n))) label
      = Ok decimal /\
    (label <> "" -> is_pyfloat decimal = true).
Proof.
  intros Hbits Hlen.
  assert (Hl : String.length label = List.length (list_ascii_of_string label)).
  { clear. induction label; simpl; congruence. }
  set (bits := map bit_value (list_ascii_of_string label)).
  assert (Hb : Forall (fun b => b = 0 \/ b = 1) bits).
  { apply List.Forall_forall. intros b Hb. apply in_map_iff in Hb as (c & <- & _).
    apply bit_value_cases. }
  assert (Hbl : List.length bits = String.length label).
  { unfold bits. now rewrite List.length_map. }
  destruct (sum_from_floats (terms_from 0 bits) (terms_from_float bits 0)
              (PyInt 0) (ex_intro _ fzero eq_refl)) as (d & Hd & Hf).
  exists d. split.
  - unfold label_decimal. rewrite (label_bits _ Hbits). simpl bind. fold bits.
    rewrite (code_terms bits Hb) by lia. exact Hd.
  - intros Hne. apply Hf. unfold terms_from.
    destruct label as [|c label]; [congruence|]. simpl. discriminate.
Qed.

End Decoding.

(* ================================================================== *)
(** * Phase estimation: the label of the top measurement                *)
(* ================================================================== *)

Section TopLabel.

Import QPE.

(** ** Counts mode *)

Lemma In_insert_sorted (a x : Z * string) (l : list (Z * string)) :
  In x (Np.insert_sorted a l) <-> x = a \/ In x l.
Proof.
  induction l as [|b l IH]; simpl.
  - intuition.
  - destruct (Np.tuple_leb b a); simpl; rewrite ?IH; intuition.
Qed.

Lemma In_sorted (x : Z * string) (l : list (Z * string)) :
  In x (Np.sorted l) <-> In x l.
Proof.
  induction l as [|a l IH]; simpl; [reflexivity|].
  rewrite In_insert_sorted, IH. intuition.
Qed.

Lemma tuple_leb_count (a b : Z * string) : Np.tuple_leb a b = true -> count_le a b.
Proof.
  unfold Np.tuple_leb, count_le. intros H.
  apply orb_prop in H as [H|H]; [apply Z.ltb_lt in H; lia|].
  apply andb_prop in H as [H _]. apply Z.eqb_eq in H. lia.
Qed.

Lemma tuple_leb_false_count (a b : Z * string) :
  Np.tuple_leb a b = false -> count_le b a.
Proof.
  unfold Np.tuple_leb, count_le. intros H.
  apply orb_false_elim in H as [H _]. apply Z.ltb_ge in H. exact H.
Qed.

Lemma insert_sorted_sorted (a : Z * string) (l : list (Z * string)) :
  StronglySorted count_le l -> StronglySorted count_le (Np.insert_sorted a l).
Proof.
  induction 1 as [|b l Hl IH Hb]; simpl.
  - constructor; constructor.
  - destruct (Np.tuple_leb b a) eqn:E.
    + constructor; [exact IH|].
      apply List.Forall_forall. intros x Hx. apply In_insert_sorted in Hx as [-> | Hx].
      * now apply tuple_leb_count.
      * rewrite List.Forall_forall in Hb. now apply Hb.
    + apply tuple_leb_false_count in E. constructor; [now constructor|].
      constructor; [exact E|].
      apply List.Forall_forall. intros x Hx. rewrite List.Forall_forall in Hb.
      specialize (Hb x Hx). unfold count_le in *. lia.
Qed.

Lemma sorted_sorted (l : list (Z * string)) : StronglySorted count_le (Np.sorted l).
Proof.
  induction l as [|a l IH]; simpl; [constructor|]. now apply insert_sorted_sorted.
Qed.

Lemma sorted_last (l : list (Z * string)) (top : Z * string) :
  StronglySorted count_le (l ++ [top]) -> forall x, In x l -> count_le x top.
Proof.
  induction l as [|a l IH]; intros H x Hx; [destruct Hx|].
  simpl in H. inversion H as [|? ? Hs Hf]; subst.
  destruct Hx as [<- | Hx].
  - rewrite List.Forall_forall in Hf. apply Hf. apply in_or_app. right. now left.
  - now apply IH.
Qed.

(** The label in counts mode is the reversed key of an outcome whose count
    is the highest. *)
Lemma counts_label_spec (ancilla_counts : list (string * Z)) :
  ancilla_counts <> [] ->
  exists key count,
    In (key, count) ancilla_counts /\
    (forall k c, In (k, c) ancilla_counts -> c <= count) /\
    counts_label ancilla_counts = Ok (str_rev key).
Proof.
  intros Hne. unfold counts_label.
  set (tuples := map (fun kc : string * Z => (snd kc, fst kc)) ancilla_counts).
  assert (Hin : forall k c, In (c, k) (Np.sorted tuples) <-> In (k, c) ancilla_counts).
  { intros k c. rewrite In_sorted. unfold tuples. rewrite in_map_iff. split.
    - intros ([k' c'] & E & H). simpl in E. now inversion E; subst.
    - intros H. now exists (k, c). }
  destruct (rev (Np.sorted tuples)) as [|[count key] rest] eqn:E.
  - exfalso. destruct ancilla_counts as [|[k c] l]; [congruence|].
    assert (H : In (c, k) (Np.sorted tuples)) by (apply Hin; now left).
    apply in_rev in H. rewrite E in H. destruct H.
  - assert (Es : Np.sorted tuples = rev rest ++ [(count, key)]).
    { rewrite <- (rev_involutive (Np.sorted tuples)), E. reflexivity. }
    exists key, count. split; [|split; [|reflexivity]].
    + apply Hin. rewrite Es. apply in_or_app. right. now left.
    + intros k c Hk. apply Hin in Hk. rewrite Es in Hk.
      apply in_app_or in Hk as [Hk|[Hk|[]]].
      * pose proof (sorted_sorted tuples) as Hs. rewrite Es in Hs.
        exact (sorted_last _ _ Hs (c, k) Hk).
      * inversion Hk. lia.
Qed.

(** ** State-vector mode *)

Lemma Qltb_true (a b : Q) : Np.Qltb a b = true -> (a < b)%Q.
Proof.
  unfold Np.Qltb. intros H. apply negb_true_iff in H.
  apply Qnot_le_lt. intros Hle. apply Qle_bool_iff in Hle. congruence.
Qed.

Lemma Qltb_false (a b : Q) : Np.Qltb a b = false -> (b <= a)%Q.
Proof.
  unfold Np.Qltb. intros H. apply negb_false_iff in H. now apply Qle_bool_iff.
Qed.

Lemma min_from_spec (l : list Q) (best : Q) :
  In (Np.min_from best l) (best :: l) /\
  forall v, In v (best :: l) -> (Np.min_from best l <= v)%Q.
Proof.
  revert best. induction l as [|w l IH]; intros best; simpl.
  - split; [now left|]. intros v [ <- | [] ]. apply Qle_refl.
  - destruct (IH (if Np.Qltb w best then w else best)) as [Hin Hle]. split.
    + destruct Hin as [Hin|Hin]; [|now right; right].
      destruct (Np.Qltb w best); [right; left|left]; exact Hin.
    + intros v Hv. destruct (Np.Qltb w best) eqn:E.
      * apply Qltb_true in E. destruct Hv as [ <- | [ <- | Hv ] ].
        -- pose proof (Hle w (or_introl eq_refl)). lra.
        -- apply Hle. now left.
        -- apply Hle. now right.
      * apply Qltb_false in E. destruct Hv as [ <- | [ <- | Hv ] ].
        -- apply Hle. now left.
        -- pose proof (Hle best (or_introl eq_refl)). lra.
        -- apply Hle. now right.
Qed.

Lemma max_from_spec (l : list Q) (best : Q) :
  In (Np.max_from best l) (best :: l) /\
  forall v, In v (best :: l) -> (v <= Np.max_from best l)%Q.
Proof.
  revert best. induction l as [|w l IH]; intros best; simpl.
  - split; [now left|]. intros v [ <- | [] ]. apply Qle_refl.
  - destruct (IH (if Np.Qltb best w then w else best)) as [Hin Hle]. split.
    + destruct Hin as [Hin|Hin]; [|now right; right].
      destruct (Np.Qltb best w); [right; left|left]; exact Hin.
    + intros v Hv. destruct (Np.Qltb best w) eqn:E.
      * apply Qltb_true in E. destruct Hv as [ <- | [ <- | Hv ] ].
        -- pose proof (Hle w (or_introl eq_refl)). lra.
        -- apply Hle. now left.
        -- apply Hle. now right.
      * apply Qltb_false in E. destruct Hv as [ <- | [ <- | Hv ] ].
        -- apply Hle. now left.
        -- pose proof (Hle best (or_introl eq_refl)). lra.
        -- apply Hle. now right.
Qed.

(** The first index found holds an entry equal to the one looked for. *)
Lemma where_eq_spec (a : list Q) (v : Q) :
  In v a ->
  forall s, exists idx amp rest,
    Np.where_eq a v s = (s + idx)%nat :: rest /\
    nth_error a idx = Some amp /\ (amp == v)%Q.
Proof.
  induction a as [|w a IH]; intros Hin s; [destruct Hin|].
  simpl. destruct (Qeq_bool w v) eqn:E.
  - exists 0%nat, w, (Np.where_eq a v (S s)). rewrite Nat.add_0_r.
    split; [reflexivity|]. split; [reflexivity|]. now apply Qeq_bool_eq.
  - destruct Hin as [ -> | Hin ]; [rewrite Qeq_bool_refl in E; discriminate|].
    destruct (IH Hin (S s)) as (idx & amp & rest & Hw & Hn & Ha).
    exists (S idx), amp, rest. split; [|split; assumption].
    rewrite Hw. f_equal. lia.
Qed.

Lemma Qabs_between (lo hi v amp : Q) :
  (lo <= v)%Q -> (v <= hi)%Q ->
  (amp == (if Np.Qltb (Qabs lo) (Qabs hi) then hi else lo))%Q ->
  (Qabs v <= Qabs amp)%Q.
Proof.
  intros Hlo Hhi Hamp. rewrite Hamp. apply Qabs_Qle_condition.
  pose proof (Qle_Qabs hi) as H1.
  pose proof (Qle_Qabs (- lo)%Q) as H2. rewrite Qabs_opp in H2.
  destruct (Np.Qltb (Qabs lo) (Qabs hi)) eqn:E.
  - apply Qltb_true in E. split; lra.
  - apply Qltb_false in E. split; lra.
Qed.

(** The label in state-vector mode is the reversed binary representation
    of an index whose entry has the largest magnitude of the diagonal. *)
Lemma statevector_label_spec (num_ancillae : Z) (diag : list Q) :
  diag <> [] ->
  exists idx amp,
    nth_error diag idx = Some amp /\
    (forall v, In v diag -> (Qabs v <= Qabs amp)%Q) /\
    statevector_label num_ancillae diag =
      Ok (str_rev (Np.binary_repr idx num_ancillae)).
Proof.
  intros Hne. destruct diag as [|d diag]; [congruence|].
  unfold statevector_label. cbn [Np.min Np.max bind].
  destruct (min_from_spec diag d) as [Hmin_in Hmin].
  destruct (max_from_spec diag d) as [Hmax_in Hmax].
  set (lo := Np.min_from d diag) in *. set (hi := Np.max_from d diag) in *.
  set (amp0 := if Np.Qltb (Qabs lo) (Qabs hi) then hi else lo).
  assert (Hin : In amp0 (d :: diag)).
  { unfold amp0. destruct (Np.Qltb (Qabs lo) (Qabs hi)); assumption. }
  destruct (where_eq_spec (d :: diag) amp0 Hin 0) as (idx & amp & rest & Hw & Hn & Ha).
  rewrite Hw. exists idx, amp. split; [exact Hn|]. split; [|reflexivity].
  intros v Hv. apply (Qabs_between lo hi); auto.
Qed.

(** ** The shape of the label *)

Lemma list_ascii_append (a b : string) :
  list_ascii_of_string (String.append a b) =
  list_ascii_of_string a ++ list_ascii_of_string b.
Proof. induction a as [|c a IH]; simpl; [reflexivity|now rewrite IH]. Qed.

Lemma length_list_ascii (s : string) :
  List.length (list_ascii_of_string s) = String.length s.
Proof. induction s as [|c s IH]; simpl; congruence. Qed.

Lemma zeros_chars (k : nat) :
  list_ascii_of_string (Np.zeros k) = repeat "0"%char k.
Proof. induction k as [|k IH]; simpl; congruence. Qed.

Lemma pos_bin_chars (p : positive) :
  forall acc,
  Forall (fun c => is_bit c = true) (list_ascii_of_string acc) ->
  Forall (fun c => is_bit c = true) (list_ascii_of_string (Np.pos_bin p acc)).
Proof.
  induction p as [p IH|p IH|]; intros acc Hacc; simpl.
  - apply IH. simpl. now constructor.
  - apply IH. simpl. now constructor.
  - now constructor.
Qed.

Lemma pos_bin_length (p : positive) :
  forall acc,
  String.length (Np.pos_bin p acc) = (Pos.to_nat (Pos.size p) + String.length acc)%nat.
Proof.
  induction p as [p IH|p IH|]; intros acc; simpl Np.pos_bin; simpl Pos.size.
  - rewrite IH. simpl. lia.
  - rewrite IH. simpl. lia.
  - simpl. lia.
Qed.

Lemma bin_chars (num : N) :
  Forall (fun c => is_bit c = true) (list_ascii_of_string (Np.bin num)).
Proof.
  destruct num as [|p]; simpl.
  - now repeat constructor.
  - apply pos_bin_chars. constructor.
Qed.

Lemma bin_length (num : N) (n : Z) :
  1 <= n -> Z.of_N num < 2 ^ n -> (String.length (Np.bin num) <= Z.to_nat n)%nat.
Proof.
  intros Hn Hnum. destruct num as [|p]; simpl.
  - lia.
  - rewrite pos_bin_length. simpl String.length.
    pose proof (Zdigits2_log2 p) as Hd.
    change (Zdigits2 (Z.pos p)) with (Z.pos (digits2_pos p)) in Hd.
    rewrite digits2_pos_size in Hd.
    assert (Hl : Z.log2 (Z.pos p) < n) by (apply Z.log2_lt_pow2; [lia|exact Hnum]).
    lia.
Qed.

Lemma binary_repr_chars (idx : nat) (n : Z) :
  Forall (fun c => is_bit c = true) (list_ascii_of_string (Np.binary_repr idx n)).
Proof.
  unfold Np.binary_repr, Np.zfill. rewrite list_ascii_append, zeros_chars.
  apply Forall_app. split; [|apply bin_chars].
  apply List.Forall_forall. intros c Hc. apply repeat_spec in Hc. now subst.
Qed.

Lemma zeros_length (k : nat) : String.length (Np.zeros k) = k.
Proof. induction k as [|k IH]; simpl; congruence. Qed.

Lemma binary_repr_length (idx : nat) (n : Z) :
  1 <= n -> Z.of_nat idx < 2 ^ n ->
  String.length (Np.binary_repr idx n) = Z.to_nat n.
Proof.
  intros Hn Hidx.
  assert (Hb : (String.length (Np.bin (N.of_nat idx)) <= Z.to_nat n)%nat).
  { apply bin_length; [exact Hn|]. now rewrite nat_N_Z. }
  unfold Np.binary_repr, Np.zfill.
  rewrite <- length_list_ascii, list_ascii_append, List.length_app, !length_list_ascii.
  rewrite zeros_length. lia.
Qed.

Lemma str_rev_chars (s : string) :
  list_ascii_of_string (str_rev s) = rev (list_ascii_of_string s).
Proof. unfold str_rev. apply list_ascii_of_string_of_list_ascii. Qed.

Lemma str_rev_length (s : string) : String.length (str_rev s) = String.length s.
Proof. now rewrite <- !length_list_ascii, str_rev_chars, List.length_rev. Qed.

Lemma str_rev_bits (s : string) :
  Forall (fun c => is_bit c = true) (list_ascii_of_string s) ->
  Forall (fun c => is_bit c = true) (list_ascii_of_string (str_rev s)).
Proof. intros H. rewrite str_rev_chars. now apply Forall_rev. Qed.

(** What [well_formed] says, in propositions. *)
Lemma well_formed_counts (n : Z) (ancilla_counts : list (string * Z)) :
  well_formed n (Counts ancilla_counts) = true ->
  ancilla_counts <> [] /\
  forall k c, In (k, c) ancilla_counts ->
    Forall (fun a => is_bit a = true) (list_ascii_of_string k) /\
    String.length k = Z.to_nat n.
Proof.
  simpl. intros H. apply andb_prop in H as [Hne Hall]. split.
  - destruct ancilla_counts; [discriminate|congruence].
  - intros k c Hin. rewrite List.forallb_forall in Hall.
    specialize (Hall (k, c) Hin). simpl in Hall.
    apply andb_prop in Hall as [Hb Hl]. apply Z.eqb_eq in Hl.
    split; [now apply is_bitstring_chars|lia].
Qed.

Lemma well_formed_statevector (n : Z) (diag : list Q) :
  1 <= n -> well_formed n (Statevector diag) = true ->
  diag <> [] /\ Z.of_nat (List.length diag) = 2 ^ n.
Proof.
  simpl. intros Hn H. apply Z.eqb_eq in H. split; [|exact H].
  assert (0 < 2 ^ n) by (apply Z.pow_pos_nonneg; lia).
  destruct diag; [simpl in H; lia|congruence].
Qed.

End TopLabel.

(* ================================================================== *)
(** * Phase estimation: construction and energy                         *)
(* ================================================================== *)

Section QPEFacts.

Import QPE.

Context {coeff : Type} (coeff_abs : coeff -> number)
        (coeff_scale : coeff -> number -> result coeff)
        {InitialState IQFT : Type}.

Lemma validate_locals (operator : Operator coeff) (state_in : InitialState) (iqft : IQFT)
    (nts n : Z) (mode : string) (order : Z) (sh : bool) :
  validate CONFIGURATION (locals operator state_in iqft nts n mode order sh) =
  if params_ok nts n mode order then Ok tt else Raise AquaError.
Proof.
  unfold validate, locals, params_ok.
  cbn [CONFIGURATION input_schema properties forallb fst snd].
  unfold PROP_NUM_TIME_SLICES, PROP_EXPANSION_MODE, PROP_EXPANSION_ORDER, PROP_NUM_ANCILLAE.
  simplify_map_eq.
  unfold property_ok, type_ok, minimum_ok, oneOf_ok, in_enum. simpl.
  destruct (1 <=? nts), (1 <=? order), (1 <=? n),
    (String.eqb mode "suzuki"), (String.eqb mode "trotter"); reflexivity.
Qed.

Lemma half_div (translation : pynum) :
  py_truediv (PyFloat fhalf) translation =
  (tf <- to_float translation ;;
   if is_zero tf then Raise ZeroDivisionError
   else Ok (PyFloat (SFdiv prec emax fhalf tf))).
Proof. destruct translation; reflexivity. Qed.

Lemma zero_to_float (a : pynum) :
  py_is_zero a = true -> exists f, to_float a = Ok f /\ is_zero f = true.
Proof.
  destruct a as [z|f]; simpl; intros H.
  - apply Z.eqb_eq in H. subst. now exists fzero.
  - now exists f.
Qed.

(** [0.5 / translation] for the two kinds of translation. *)
Lemma half_truediv_python (t : pynum) :
  num_truediv (PyFloat fhalf) t =
  (tf <- to_float t ;;
   if is_zero tf then Raise ZeroDivisionError
   else Ok (Python (PyFloat (SFdiv prec emax fhalf tf)))).
Proof.
  unfold num_truediv. rewrite half_div.
  destruct (to_float t) as [tf|e]; [|reflexivity]. cbn [bind].
  now destruct (is_zero tf).
Qed.

Lemma half_truediv_numpy (f : float) :
  num_truediv (PyFloat fhalf) (Float64 f) = Ok (Float64 (SFdiv prec emax fhalf f)).
Proof. reflexivity. Qed.

(** The constructor, step by step. *)
Lemma init_run (operator : Operator coeff) (state_in : InitialState) (iqft : IQFT)
    (nts n : Z) (mode : string) (order : Z) (sh : bool) :
  __init__ coeff_abs coeff_scale operator state_in iqft nts n mode order sh =
  if params_ok nts n mode order then
    translation <- num_sum (map coeff_abs (get_flat_pauli_list operator)) ;;
    stretch <- num_truediv (PyFloat fhalf) translation ;;
    pauli_list <- mapM (fun p => coeff_scale p stretch) (get_flat_pauli_list operator) ;;
    Ok {| _num_ancillae := n;
          _ret := <["stretch" := VNum stretch]> (<["translation" := VNum translation]> ∅);
          _pauli_list := pauli_list;
          _binary_fractions :=
            map (fun i => PyFloat (fraction (1 + Z.of_nat i))) (seq 0 (Z.to_nat n)) |}
  else Raise AquaError.
Proof.
  unfold __init__. rewrite validate_locals.
  destruct (params_ok nts n mode order); [|reflexivity]. cbn [bind].
  destruct (num_sum _) as [translation|e]; [|reflexivity]. cbn [bind].
  destruct (num_truediv _ _) as [stretch|e]; [|reflexivity]. cbn [bind].
  destruct (mapM _ (get_flat_pauli_list operator)) as [pl|e]; [|reflexivity]. cbn [bind].
  rewrite binary_fractions_ok. reflexivity.
Qed.

(** What a constructed instance is: the options are valid, the translation
    is the sum of the absolute values, and the stretch is a non-zero
    Python float or a [numpy.float64]. *)
Lemma init_factors (operator : Operator coeff) (state_in : InitialState) (iqft : IQFT)
    (nts n : Z) (mode : string) (order : Z) (sh : bool) (self : t coeff) :
  __init__ coeff_abs coeff_scale operator state_in iqft nts n mode order sh = Ok self ->
  exists translation stretch pauli_list tf,
    1 <= n /\
    num_sum (map coeff_abs (get_flat_pauli_list operator)) = Ok translation /\
    num_truediv (PyFloat fhalf) translation = Ok stretch /\
    num_to_float translation = Ok tf /\
    ((exists t, translation = Python t) /\ is_zero tf = false /\
       stretch = Python (PyFloat (SFdiv prec emax fhalf tf))
     \/ translation = Float64 tf /\ stretch = Float64 (SFdiv prec emax fhalf tf)) /\
    self = {| _num_ancillae := n;
              _ret := <["stretch" := VNum stretch]>
                      (<["translation" := VNum translation]> ∅);
              _pauli_list := pauli_list;
              _binary_fractions :=
                map (fun i => PyFloat (fraction (1 + Z.of_nat i))) (seq 0 (Z.to_nat n)) |}.
Proof.
  intros H. rewrite init_run in H.
  destruct (params_ok nts n mode order) eqn:Hok; [|discriminate].
  assert (Hn : 1 <= n).
  { unfold params_ok in Hok. apply andb_prop in Hok as [_ Hok]. now apply Z.leb_le. }
  destruct (num_sum _) as [translation|e]; [|discriminate]. cbn [bind] in H.
  destruct translation as [t|f].
  - rewrite half_truediv_python in H.
    destruct (to_float t) as [tf|e] eqn:Htf; [|discriminate]. cbn [bind] in H.
    destruct (is_zero tf) eqn:Hz; [discriminate|]. cbn [bind] in H.
    destruct (mapM _ _) as [pl|e]; [|discriminate]. cbn [bind] in H.
    injection H as H. subst self.
    exists (Python t), (Python (PyFloat (SFdiv prec emax fhalf tf))), pl, tf.
    split; [exact Hn|]. split; [reflexivity|].
    split; [rewrite half_truediv_python, Htf; cbn [bind]; now rewrite Hz|].
    split; [exact Htf|]. split; [|reflexivity].
    left. split; [now exists t|]. now split.
  - rewrite half_truediv_numpy in H. cbn [bind] in H.
    destruct (mapM _ _) as [pl|e]; [|discriminate]. cbn [bind] in H.
    injection H as H. subst self.
    exists (Float64 f), (Float64 (SFdiv prec emax fhalf f)), pl, f.
    split; [exact Hn|]. split; [reflexivity|]. split; [reflexivity|].
    split; [reflexivity|]. split; [|reflexivity]. now right.
Qed.

(** C10, amended. The constructor computes the translation as the sum of
    the absolute values of the coefficients of the flat Pauli list and the
    stretch as 0.5 divided by the translation, and a construction that
    returns has stored both.  When the translation is a Python number, a
    translation equal to zero makes the construction fail with a division
    by zero, a construction that returns has a non-zero translation, and
    with a non-zero translation the construction returns as soon as the
    scaling of the coefficients does.  When the translation is a
    [numpy.float64], the division does not fail: the construction returns
    as soon as the scaling does, and for a translation equal to zero the
    stretch it stores is an infinity. *)
Theorem init_translation_stretch (operator : Operator coeff) (state_in : InitialState)
    (iqft : IQFT) (nts n : Z) (mode : string) (order : Z) (sh : bool)
    (translation : number) :
  params_ok nts n mode order = true ->
  num_sum (map coeff_abs (get_flat_pauli_list operator)) = Ok translation ->
  (forall self,
     __init__ coeff_abs coeff_scale operator state_in iqft nts n mode order sh = Ok self ->
     _ret self !! "translation" = Some (VNum translation) /\
     exists stretch,
       num_truediv (PyFloat fhalf) translation = Ok stretch /\
       _ret self !! "stretch" = Some (VNum stretch)) /\
  (forall t : pynum, translation = Python t ->
     (py_is_zero t = true ->
      __init__ coeff_abs coeff_scale operator state_in iqft nts n mode order sh
        = Raise ZeroDivisionError) /\
     (forall self,
        __init__ coeff_abs coeff_scale operator state_in iqft nts n mode order sh = Ok self ->
        py_is_zero t = false) /\
     (forall tf pauli_list,
        to_float t = Ok tf -> is_zero tf = false ->
        mapM (fun p => coeff_scale p (PyFloat (SFdiv prec emax fhalf tf)))
             (get_flat_pauli_list operator) = Ok pauli_list ->
        exists self,
          __init__ coeff_abs coeff_scale operator state_in iqft nts n mode order sh
            = Ok self /\
          _ret self !! "stretch" = Some (VNum (PyFloat (SFdiv prec emax fhalf tf))))) /\
  (forall f pauli_list, translation = Float64 f ->
     mapM (fun p => coeff_scale p (Float64 (SFdiv prec emax fhalf f)))
          (get_flat_pauli_list operator) = Ok pauli_list ->
     exists self,
       __init__ coeff_abs coeff_scale operator state_in iqft nts n mode order sh = Ok self /\
       _ret self !! "stretch" = Some (VNum (Float64 (SFdiv prec emax fhalf f))) /\
       (is_zero f = true ->
        exists sign, SFdiv prec emax fhalf f = S754_infinity sign)).
Proof.
  intros Hok Hsum. rewrite init_run, Hok, Hsum. cbn [bind].
  split; [|split].
  - intros self H.
    destruct (num_truediv (PyFloat fhalf) translation) as [stretch|e] eqn:Ed;
      [|discriminate].
    cbn [bind] in H. bind_inv H.
    injection H as H. subst self. cbn [_ret].
    split; [now simplify_map_eq|].
    exists stretch. split; [reflexivity|]. now simplify_map_eq.
  - intros t ->.
    assert (Hzero : py_is_zero t = true ->
                    num_truediv (PyFloat fhalf) t = Raise ZeroDivisionError).
    { intros Hz. destruct (zero_to_float t Hz) as (f & Hf & Hz').
      rewrite half_truediv_python, Hf. cbn [bind]. now rewrite Hz'. }
    split; [|split].
    + intros Hz. now rewrite (Hzero Hz).
    + intros self H. destruct (py_is_zero t) eqn:Ez; [|reflexivity].
      rewrite (Hzero eq_refl) in H. discriminate.
    + intros tf pl Htf Hnz Hpl. rewrite half_truediv_python, Htf. cbn [bind].
      rewrite Hnz. cbn [bind]. rewrite Hpl. cbn [bind].
      eexists. split; [reflexivity|]. cbn [_ret]. now simplify_map_eq.
  - intros f pl -> Hpl. rewrite half_truediv_numpy. cbn [bind].
    rewrite Hpl. cbn [bind]. eexists. split; [reflexivity|]. cbn [_ret].
    split; [now simplify_map_eq|].
    intros Hz. destruct f as [sign| | |]; try discriminate.
    now exists sign.
Qed.

(** [_compute_energy], step by step, once its parts are known to return. *)
Lemma compute_energy_run (self : t coeff) (res : backend_result)
    (label : string) (decimal : pynum) (stretch translation scaled eigval : number) :
  top_measurement_label (_num_ancillae self) res = Ok label ->
  label_decimal (_binary_fractions self) label = Ok decimal ->
  _ret self !! "stretch" = Some (VNum stretch) ->
  _ret self !! "translation" = Some (VNum translation) ->
  num_truediv decimal stretch = Ok scaled ->
  num_sub scaled translation = Ok eigval ->
  _compute_energy self res =
    Ok {| _num_ancillae := _num_ancillae self;
          _ret := <["energy" := VNum eigval]> (<["eigvals" := VList [eigval]]>
                  (<["top_measurement_decimal" := VNum decimal]>
                  (<["top_measurement_label" := VStr label]> (_ret self))));
          _pauli_list := _pauli_list self;
          _binary_fractions := _binary_fractions self |}.
Proof.
  intros Hl Hd Hs Ht Hdiv Hsub. unfold _compute_energy.
  rewrite Hl. cbn [bind]. rewrite Hd. cbn [bind].
  unfold getitem. simplify_map_eq. cbn [bind as_num].
  rewrite Hdiv. cbn [bind]. rewrite Hsub. reflexivity.
Qed.

(** The inverse affine transform of a double returns for the factors of a
    constructed instance, when a Python stretch is not zero. *)
Lemma affine_returns (d tf : float) (stretch translation : number) :
  num_to_float translation = Ok tf ->
  (exists sf, stretch = Python (PyFloat sf) /\ is_zero sf = false)
  \/ (exists sf, stretch = Float64 sf) ->
  exists scaled eigval,
    num_truediv (PyFloat d) stretch = Ok scaled /\
    num_sub scaled translation = Ok eigval.
Proof.
  intros Htf [(sf & -> & Hz) | (sf & ->)].
  - exists (Python (PyFloat (SFdiv prec emax d sf))).
    assert (E : num_truediv (PyFloat d) (PyFloat sf) =
                Ok (Python (PyFloat (SFdiv prec emax d sf)))).
    { unfold num_truediv, py_truediv. cbn [to_float bind]. now rewrite Hz. }
    destruct translation as [t|f].
    + exists (Python (PyFloat (SFsub prec emax (SFdiv prec emax d sf) tf))).
      split; [exact E|]. cbn [num_to_float] in Htf.
      unfold num_sub, py_sub. cbn [to_float bind]. rewrite Htf. reflexivity.
    + exists (Float64 (SFsub prec emax (SFdiv prec emax d sf) f)).
      split; [exact E|]. reflexivity.
  - exists (Float64 (SFdiv prec emax d sf)),
      (Float64 (SFsub prec emax (SFdiv prec emax d sf) tf)).
    split; [reflexivity|]. unfold num_sub. cbn [num_to_float bind].
    rewrite Htf. reflexivity.
Qed.

(** What a run that returns has stored of the label and of its decimal. *)
Lemma compute_energy_stores (self self' : t coeff) (res : backend_result)
    (label : string) (decimal : pynum) :
  top_measurement_label (_num_ancillae self) res = Ok label ->
  label_decimal (_binary_fractions self) label = Ok decimal ->
  _compute_energy self res = Ok self' ->
  _ret self' !! "top_measurement_label" = Some (VStr label) /\
  _ret self' !! "top_measurement_decimal" = Some (VNum decimal).
Proof.
  intros Hl Hd H. unfold _compute_energy in H.
  rewrite Hl in H. cbn [bind] in H. rewrite Hd in H. cbn [bind] in H.
  bind_inv H.
  injection H as H. subst self'. cbn [_ret]. split; now simplify_map_eq.
Qed.

(** The label of a well-formed backend result: it exists, is made of bits
    and is as long as the number of ancillae. *)
Lemma top_measurement_label_shape (n : Z) (res : backend_result) :
  1 <= n -> well_formed n res = true ->
  exists label,
    top_measurement_label n res = Ok label /\
    Forall (fun c => is_bit c = true) (list_ascii_of_string label) /\
    String.length label = Z.to_nat n /\
    match res with
    | Counts ancilla_counts =>
        exists key count,
          In (key, count) ancilla_counts /\
          (forall k c, In (k, c) ancilla_counts -> c <= count) /\
          label = str_rev key
    | Statevector diag =>
        exists idx amp,
          nth_error diag idx = Some amp /\
          (forall v, In v diag -> (Qabs v <= Qabs amp)%Q) /\
          label = str_rev (Np.binary_repr idx n)
    end.
Proof.
  intros Hn Hwf. destruct res as [diag|ancilla_counts]; cbn [top_measurement_label].
  - destruct (well_formed_statevector n diag Hn Hwf) as [Hne Hlen].
    destruct (statevector_label_spec n diag Hne) as (idx & amp & Hnth & Hmax & E).
    assert (Hidx : Z.of_nat idx < 2 ^ n).
    { rewrite <- Hlen. apply Nat2Z.inj_lt. apply nth_error_Some. congruence. }
    eexists. split; [exact E|]. split; [|split].
    + apply str_rev_bits, binary_repr_chars.
    + rewrite str_rev_length. now apply binary_repr_length.
    + now exists idx, amp.
  - destruct (well_formed_counts n ancilla_counts Hwf) as [Hne Hkeys].
    destruct (counts_label_spec ancilla_counts Hne) as (key & count & Hin & Hmax & E).
    destruct (Hkeys key count Hin) as [Hbits Hlen].
    eexists. split; [exact E|]. split; [|split].
    + now apply str_rev_bits.
    + now rewrite str_rev_length.
    + now exists key, count.
Qed.

(** Up to eight ancillae, checked label by label: the decoded fraction is
    exactly the binary fraction the label spells. *)
Lemma label_decimal_exact_small :
  forallb (fun k => forallb (decodes_exactly k) (labels k)) (seq 1 8) = true.
Proof. vm_compute. reflexivity. Qed.

(** C2. For a constructed instance and a well-formed backend result, when
    a Python stretch factor is not zero, [_compute_energy] returns, and the
    eigenvalue it stores (as the only element of 'eigvals' and as 'energy')
    is the decoded decimal fraction divided by the stretch, minus the
    translation: the decimal is the one decoded from the label of the top
    measurement of this backend result, it is what the run stores under
    'top_measurement_decimal', and the stretch and the translation are the
    factors the constructor computed and stored, which the run keeps. *)
Theorem compute_energy_inverse_affine (operator : Operator coeff)
    (state_in : InitialState) (iqft : IQFT) (nts n : Z) (mode : string) (order : Z)
    (sh : bool) (self : t coeff) (res : backend_result) :
  __init__ coeff_abs coeff_scale operator state_in iqft nts n mode order sh = Ok self ->
  well_formed n res = true ->
  (forall s : pynum, _ret self !! "stretch" = Some (VNum s) -> py_is_zero s = false) ->
  exists self' label decimal stretch translation scaled eigval,
    num_sum (map coeff_abs (get_flat_pauli_list operator)) = Ok translation /\
    num_truediv (PyFloat fhalf) translation = Ok stretch /\
    _ret self !! "translation" = Some (VNum translation) /\
    _ret self !! "stretch" = Some (VNum stretch) /\
    top_measurement_label (_num_ancillae self) res = Ok label /\
    label_decimal (_binary_fractions self) label = Ok (PyFloat decimal) /\
    _compute_energy self res = Ok self' /\
    _ret self' !! "top_measurement_label" = Some (VStr label) /\
    _ret self' !! "top_measurement_decimal" = Some (VNum (PyFloat decimal)) /\
    _ret self' !! "stretch" = Some (VNum stretch) /\
    _ret self' !! "translation" = Some (VNum translation) /\
    num_truediv (PyFloat decimal) stretch = Ok scaled /\
    num_sub scaled translation = Ok eigval /\
    _ret self' !! "eigvals" = Some (VList [eigval]) /\
    _ret self' !! "energy" = Some (VNum eigval).
Proof.
  intros Hinit Hwf Hnz.
  destruct (init_factors _ _ _ _ _ _ _ _ _ Hinit)
    as (translation & stretch & pl & tf & Hn & Hsum & Hdiv0 & Htf & Hkind & ->).
  cbn [_ret _num_ancillae _binary_fractions] in *.
  assert (Hs : (exists sf, stretch = Python (PyFloat sf) /\ is_zero sf = false)
               \/ (exists sf, stretch = Float64 sf)).
  { destruct Hkind as [(_ & _ & ->) | (_ & ->)]; [left|right; eauto].
    eexists. split; [reflexivity|].
    apply (Hnz (PyFloat (SFdiv prec emax fhalf tf))). now simplify_map_eq. }
  destruct (top_measurement_label_shape n res Hn Hwf) as (label & Hl & Hbits & Hlen & _).
  destruct (label_decimal_formula n label Hbits ltac:(lia)) as (decimal & Hd & Hf).
  assert (Hne : label <> "") by (intros ->; simpl in Hlen; lia).
  specialize (Hf Hne). destruct decimal as [z|d]; [discriminate|].
  destruct (affine_returns d tf stretch translation Htf Hs) as (scaled & eigval & Hdiv & Hsub).
  match goal with |- context [_compute_energy ?s _] => set (self := s) end.
  pose proof (compute_energy_run self res label (PyFloat d) stretch translation
                scaled eigval Hl Hd ltac:(subst self; cbn [_ret]; now simplify_map_eq)
                ltac:(subst self; cbn [_ret]; now simplify_map_eq) Hdiv Hsub) as Hrun.
  exists
    {| _num_ancillae := _num_ancillae self;
       _ret := <["energy" := VNum eigval]> (<["eigvals" := VList [eigval]]>
               (<["top_measurement_decimal" := VNum (PyFloat d)]>
               (<["top_measurement_label" := VStr label]> (_ret self))));
       _pauli_list := _pauli_list self;
       _binary_fractions := _binary_fractions self |},
    label, d, stretch, translation, scaled, eigval.
  split; [exact Hsum|]. split; [exact Hdiv0|].
  split; [now simplify_map_eq|]. split; [now simplify_map_eq|].
  split; [exact Hl|]. split; [exact Hd|]. split; [exact Hrun|].
  subst self. cbn [_ret].
  split; [now simplify_map_eq|]. split; [now simplify_map_eq|].
  split; [now simplify_map_eq|]. split; [now simplify_map_eq|].
  split; [exact Hdiv|]. split; [exact Hsub|].
  split; now simplify_map_eq.
Qed.

Lemma all_zeros_bits (label : string) :
  all_zeros label = true ->
  Forall (fun c => is_bit c = true) (list_ascii_of_string label) /\
  map bit_value (list_ascii_of_string label) =
    repeat 0 (List.length (list_ascii_of_string label)).
Proof.
  unfold all_zeros. induction (list_ascii_of_string label) as [|c l IH];
    cbn [forallb map List.length repeat].
  - intros _. split; [constructor|reflexivity].
  - intros H. apply andb_prop in H as [Hc Hl]. apply Ascii.eqb_eq in Hc. subst c.
    destruct (IH Hl) as [Hb Hm]. split; [now constructor|]. now rewrite Hm.
Qed.

Lemma terms_from_zeros (k s : nat) :
  terms_from s (repeat 0 k) = repeat (PyFloat fzero) k.
Proof.
  revert s. induction k as [|k IH]; intros s; [reflexivity|].
  cbn [repeat]. rewrite terms_from_cons, IH. reflexivity.
Qed.

Lemma sum_from_zeros (k : nat) :
  sum_from (PyFloat fzero) (repeat (PyFloat fzero) k) = Ok (PyFloat fzero).
Proof. induction k as [|k IH]; [reflexivity|]. simpl repeat. simpl sum_from. exact IH. Qed.

(** The decoding of an all-zero label. *)
Lemma zero_label_decimal (n : Z) (label : string) :
  all_zeros label = true -> label <> "" ->
  (String.length label <= Z.to_nat n)%nat ->
  label_decimal (map (fun i => PyFloat (fraction (1 + Z.of_nat i))) (seq 0 (Z.to_nat n)))
                label = Ok (PyFloat fzero).
Proof.
  intros Hz Hne Hlen. destruct (all_zeros_bits label Hz) as [Hbits Hm].
  unfold label_decimal. rewrite (label_bits _ Hbits). cbn [bind]. rewrite Hm.
  rewrite code_terms.
  - cbn [bind]. rewrite terms_from_zeros.
    destruct label as [|c label]; [congruence|]. simpl List.length.
    cbn [repeat]. unfold py_sum. simpl sum_from. apply sum_from_zeros.
  - apply List.Forall_forall. intros b Hb. apply repeat_spec in Hb. auto.
  - rewrite repeat_length, length_list_ascii. exact Hlen.
Qed.

(** C6. For every number of ancillae at least 1, a measured label made
    only of zeros decodes to the decimal fraction 0, also when the label
    comes out of the counts of a single all-zero bitstring. *)
Theorem all_zero_label_decodes_to_zero (n : Z) (key : string) :
  1 <= n -> all_zeros key = true -> String.length key = Z.to_nat n ->
  exists fractions,
    mapM binary_fraction (py_range 1 (n + 1)) = Ok fractions /\
    label_decimal fractions key = Ok (PyFloat fzero) /\
    forall count, exists label,
      counts_label [(key, count)] = Ok label /\
      all_zeros label = true /\
      label_decimal fractions label = Ok (PyFloat fzero).
Proof.
  intros Hn Hz Hlen. eexists. split; [apply binary_fractions_ok|].
  assert (Hne : key <> "") by (intros ->; simpl in Hlen; lia).
  split; [apply zero_label_decimal; auto; lia|].
  intros count. exists (str_rev key). split; [reflexivity|].
  assert (Hz' : all_zeros (str_rev key) = true).
  { unfold all_zeros in *. rewrite str_rev_chars.
    apply List.forallb_forall. intros c Hc. apply in_rev in Hc.
    rewrite List.forallb_forall in Hz. now apply Hz. }
  split; [exact Hz'|].
  apply zero_label_decimal; [exact Hz'| |rewrite str_rev_length; lia].
  intros E. apply (f_equal String.length) in E. rewrite str_rev_length in E.
  simpl in E. lia.
Qed.

(** C8. The schema declares the number of time slices, the expansion
    order and the number of ancillae as integers of default 1 and minimum
    1; the validation refuses a value below 1 for any of them, and so does
    the constructor. *)
Theorem schema_minimums :
  let integer_from_one :=
    {| ptype := TInteger; pdefault := JInt 1; pminimum := Some 1; poneOf := None |} in
  schema_property CONFIGURATION PROP_NUM_TIME_SLICES = Some integer_from_one /\
  schema_property CONFIGURATION PROP_EXPANSION_ORDER = Some integer_from_one /\
  schema_property CONFIGURATION PROP_NUM_ANCILLAE = Some integer_from_one /\
  (forall (args : gmap string json) (name : string) (v : Z),
     In name [PROP_NUM_TIME_SLICES; PROP_EXPANSION_ORDER; PROP_NUM_ANCILLAE] ->
     args !! name = Some (JInt v) -> v < 1 ->
     validate CONFIGURATION args = Raise AquaError) /\
  (forall (operator : Operator coeff) (state_in : InitialState) (iqft : IQFT)
          (nts n : Z) (mode : string) (order : Z) (sh : bool),
     nts < 1 \/ n < 1 \/ order < 1 ->
     __init__ coeff_abs coeff_scale operator state_in iqft nts n mode order sh
       = Raise AquaError).
Proof.
  cbv zeta. split; [reflexivity|]. split; [reflexivity|]. split; [reflexivity|]. split.
  - intros args name v Hname Hv Hlt. unfold validate.
    match goal with |- (if ?b then _ else _) = _ => destruct b eqn:E end; [|reflexivity].
    exfalso. rewrite List.forallb_forall in E.
    assert (Hlow : (1 <=? v) = false) by (apply Z.leb_gt; lia).
    destruct Hname as [ <- | [ <- | [ <- | [] ] ] ].
    + specialize (E (PROP_NUM_TIME_SLICES, _) (or_introl eq_refl)).
      cbn [fst snd] in E. rewrite Hv in E.
      unfold property_ok in E. simpl in E. rewrite Hlow in E. discriminate.
    + specialize (E (PROP_EXPANSION_ORDER, _) (or_intror (or_intror (or_introl eq_refl)))).
      cbn [fst snd] in E. rewrite Hv in E.
      unfold property_ok in E. simpl in E. rewrite Hlow in E. discriminate.
    + specialize (E (PROP_NUM_ANCILLAE, _)
                    (or_intror (or_intror (or_intror (or_introl eq_refl))))).
      cbn [fst snd] in E. rewrite Hv in E.
      unfold property_ok in E. simpl in E. rewrite Hlow in E. discriminate.
  - intros operator state_in iqft nts n mode order sh Hlow. rewrite init_run.
    assert (E : params_ok nts n mode order = false).
    { unfold params_ok. destruct (Z.leb_spec 1 nts), (Z.leb_spec 1 order),
        (Z.leb_spec 1 n); rewrite ?andb_false_r; try reflexivity; lia. }
    now rewrite E.
Qed.

End QPEFacts.

(* ================================================================== *)
(** * The statements on sample data                                     *)
(* ================================================================== *)

Lemma sample_qpe_init :
  QPE.__init__ num_abs num_mul sample_operator tt tt 1 2 "trotter" 1 false = Ok sample_qpe.
Proof. vm_compute. reflexivity. Qed.

(** C10, as stated, does not hold: with [numpy.float64] coefficients that
    are all zero the translation is zero and the construction returns; the
    stretch it stores is an infinity. *)
Lemma init_zero_translation_returns :
  num_sum (map num_abs (QPE.get_flat_pauli_list numpy_zero_operator)) = Ok (Float64 fzero) /\
  exists self,
    QPE.__init__ num_abs num_mul numpy_zero_operator tt tt 1 2 "trotter" 1 false = Ok self /\
    QPE._ret self !! "translation" = Some (QPE.VNum (Float64 fzero)) /\
    QPE._ret self !! "stretch" = Some (QPE.VNum (Float64 (S754_infinity false))).
Proof.
  split; [vm_compute; reflexivity|].
  eexists. split; [vm_compute; reflexivity|].
  split; vm_compute; reflexivity.
Qed.

Lemma init_translation_stretch_witness :
  (exists self,
     QPE.__init__ num_abs num_mul sample_operator tt tt 1 2 "trotter" 1 false = Ok self /\
     QPE._ret self !! "translation" = Some (QPE.VNum sample_translation) /\
     QPE._ret self !! "stretch" = Some (QPE.VNum sample_stretch)) /\
  QPE.__init__ num_abs num_mul zero_operator tt tt 1 2 "trotter" 1 false
    = Raise ZeroDivisionError /\
  (exists self,
     QPE.__init__ num_abs num_mul numpy_zero_operator tt tt 1 2 "trotter" 1 false
       = Ok self /\
     QPE._ret self !! "stretch" = Some (QPE.VNum (Float64 (S754_infinity false)))).
Proof.
  split; [|split].
  - destruct (init_translation_stretch num_abs num_mul sample_operator tt tt
                1 2 "trotter" 1 false sample_translation)
      as (Hstored & Hpython & _); [reflexivity|vm_compute; reflexivity|].
    destruct (Hpython sample_translation eq_refl) as (_ & _ & Hrun).
    destruct (Hrun (S754_finite false 7881299347898368 (-51))
                   [Python (PyFloat (S754_finite false 5146971002709138 (-56)));
                    Python (PyFloat (S754_finite true 7720456504063707 (-54)))])
      as (self & Hself & Hstretch);
      [reflexivity|reflexivity|vm_compute; reflexivity|].
    exists self. split; [exact Hself|].
    destruct (Hstored self Hself) as (Htr & _). split; [exact Htr|exact Hstretch].
  - destruct (init_translation_stretch num_abs num_mul zero_operator tt tt
                1 2 "trotter" 1 false (PyFloat fzero))
      as (_ & Hpython & _); [reflexivity|vm_compute; reflexivity|].
    destruct (Hpython (PyFloat fzero) eq_refl) as (Hzero & _ & _).
    apply Hzero. reflexivity.
  - destruct (init_translation_stretch num_abs num_mul numpy_zero_operator tt tt
                1 2 "trotter" 1 false (Float64 fzero))
      as (_ & _ & Hnumpy); [reflexivity|vm_compute; reflexivity|].
    destruct (Hnumpy fzero [Float64 S754_nan; Float64 S754_nan] eq_refl)
      as (self & Hself & Hstretch & _); [vm_compute; reflexivity|].
    exists self. split; [exact Hself|exact Hstretch].
Defined.

Lemma compute_energy_inverse_affine_witness :
  exists self' label decimal eigval,
    QPE.top_measurement_label 2 sample_counts = Ok label /\
    QPE.label_decimal (QPE._binary_fractions sample_qpe) label = Ok (PyFloat decimal) /\
    QPE._compute_energy sample_qpe sample_counts = Ok self' /\
    (r <- num_truediv (PyFloat decimal) sample_stretch ;; num_sub r sample_translation)
      = Ok eigval /\
    QPE._ret self' !! "energy" = Some (QPE.VNum eigval) /\
    QPE._ret self' !! "eigvals" = Some (QPE.VList [eigval]).
Proof.
  destruct (compute_energy_inverse_affine num_abs num_mul sample_operator tt tt
              1 2 "trotter" 1 false sample_qpe sample_counts)
    as (self' & label & decimal & stretch & translation & scaled & eigval
        & _ & _ & Htr & Hst & Hl & Hd & Hrun & _ & _ & _ & _ & Hdiv & Hsub & Heig & Hen).
  - vm_compute. reflexivity.
  - reflexivity.
  - intros s Hs. vm_compute in Hs. injection Hs as Hs. subst s. reflexivity.
  - exists self', label, decimal, eigval.
    split; [exact Hl|]. split; [exact Hd|]. split; [exact Hrun|].
    assert (Es : stretch = Python sample_stretch).
    { vm_compute in Hst. now injection Hst as <-. }
    assert (Et : translation = Python sample_translation).
    { vm_compute in Htr. now injection Htr as <-. }
    subst stretch translation.
    split; [rewrite Hdiv; cbn [bind]; exact Hsub|].
    split; [exact Hen|exact Heig].
Defined.

Lemma all_zero_label_decodes_to_zero_witness :
  exists fractions,
    mapM QPE.binary_fraction (py_range 1 (3 + 1)) = Ok fractions /\
    QPE.label_decimal fractions "000" = Ok (PyFloat fzero).
Proof.
  destruct (all_zero_label_decodes_to_zero 3 "000") as (fractions & Hf & Hd & _).
  - lia.
  - reflexivity.
  - reflexivity.
  - exists fractions. split; [exact Hf|exact Hd].
Defined.

Lemma schema_minimums_witness :
  QPE.validate QPE.CONFIGURATION {[ "num_ancillae" := QPE.JInt 0 ]} = Raise AquaError /\
  QPE.__init__ num_abs num_mul sample_operator tt tt 0 2 "trotter" 1 false = Raise AquaError.
Proof.
  destruct (schema_minimums num_abs num_mul (InitialState := unit) (IQFT := unit))
    as (_ & _ & _ & Hval & Hinit).
  split.
  - apply (Hval _ QPE.PROP_NUM_ANCILLAE 0).
    + right. right. left. reflexivity.
    + vm_compute. reflexivity.
    + lia.
  - apply Hinit. left. lia.
Defined.

(* ================================================================== *)
(** * Deutsch-Jozsa: more on the classification                         *)
(* ================================================================== *)

Section MoreInterpretMeasurement.

Lemma max_from_keep {A : Type} (key : A -> Z) (l : list A) (best : A) :
  (forall a, In a l -> key a <= key best) -> Py.max_from key best l = best.
Proof.
  revert best. induction l as [|a l IH]; intros best H; [reflexivity|].
  simpl. assert (E : (key best <? key a) = false).
  { apply Z.ltb_ge. apply H. now left. }
  rewrite E. apply IH. intros b Hb. apply H. now right.
Qed.

Lemma max_from_first {A : Type} (key : A -> Z) (pre post : list A) (best top : A) :
  key best < key top ->
  (forall a, In a pre -> key a < key top) ->
  (forall a, In a post -> key a <= key top) ->
  Py.max_from key best (pre ++ top :: post) = top.
Proof.
  revert best. induction pre as [|a pre IH]; intros best Hb Hpre Hpost.
  - simpl. apply Z.ltb_lt in Hb. rewrite Hb. now apply max_from_keep.
  - simpl. destruct (key best <? key a).
    + apply IH; auto. apply Hpre. now left. intros b Hb'. apply Hpre. now right.
    + apply IH; auto. intros b Hb'. apply Hpre. now right.
Qed.

Lemma py_max_first {A : Type} (key : A -> Z) (pre post : list A) (top : A) :
  (forall a, In a pre -> key a < key top) ->
  (forall a, In a post -> key a <= key top) ->
  py_max key (pre ++ top :: post) = Ok top.
Proof.
  intros Hpre Hpost. destruct pre as [|a pre]; simpl.
  - f_equal. now apply max_from_keep.
  - f_equal. apply max_from_first; auto.
    + apply Hpre. now left.
    + intros b Hb. apply Hpre. now right.
Qed.

(** The item selected: the first one of highest count. *)
Lemma first_maximum_selected
    (pre post : list (string * Z)) (k : string) (c : Z) :
  (forall k' c', In (k', c') pre -> c' < c) ->
  (forall k' c', In (k', c') post -> c' <= c) ->
  py_max snd (pre ++ (k, c) :: post) = Ok (k, c).
Proof.
  intros Hpre Hpost. apply (py_max_first snd pre post (k, c)).
  - intros [k' c'] H. exact (Hpre k' c' H).
  - intros [k' c'] H. exact (Hpost k' c' H).
Qed.

(** X2. Among the items of highest count the first one in iteration order
    decides: when every item before [(k, c)] has a smaller count and no
    item after it has a greater one, the answer is the one for [k]; only
    this key is converted to an integer. *)
Theorem interpret_measurement_first_maximal
    (pre post : list (string * Z)) (k : string) (c : Z) :
  is_bitstring k = true ->
  (forall k' c', In (k', c') pre -> c' < c) ->
  (forall k' c', In (k', c') post -> c' <= c) ->
  DeutschJozsa.interpret_measurement (pre ++ (k, c) :: post) =
    Ok (if all_zeros k then "constant" else "balanced").
Proof.
  intros Hk Hpre Hpost. unfold DeutschJozsa.interpret_measurement.
  rewrite (first_maximum_selected pre post k c Hpre Hpost). cbn [bind fst].
  destruct (py_int_bitstring k Hk) as (v & Hv & Hz).
  rewrite Hv. cbn [bind]. rewrite Hz. now destruct (all_zeros k).
Qed.

Lemma strict_max_decides (ms : list (string * Z)) (k : string) (c : Z) :
  List.NoDup (map fst ms) -> In (k, c) ms -> is_bitstring k = true ->
  (forall k' c', In (k', c') ms -> k' <> k -> c' < c) ->
  DeutschJozsa.interpret_measurement ms =
    Ok (if all_zeros k then "constant" else "balanced").
Proof.
  intros Hnd Hin Hk Hstrict.
  destruct (in_split _ _ Hin) as (pre & post & ->).
  rewrite map_app in Hnd. cbn [map fst] in Hnd.
  apply NoDup_remove_2 in Hnd.
  assert (Hne : forall k' c', In (k', c') pre \/ In (k', c') post -> k' <> k).
  { intros k' c' H ->. apply Hnd. apply in_or_app.
    destruct H as [H|H]; [left|right]; now apply (in_map fst) in H. }
  unfold DeutschJozsa.interpret_measurement.
  rewrite (first_maximum_selected pre post k c).
  - cbn [bind fst]. destruct (py_int_bitstring k Hk) as (v & Hv & Hz).
    rewrite Hv. cbn [bind]. rewrite Hz. now destruct (all_zeros k).
  - intros k' c' H. apply (Hstrict k' c'); [apply in_or_app; now left|].
    apply (Hne k' c'). now left.
  - intros k' c' H. apply Z.lt_le_incl.
    apply (Hstrict k' c'); [apply in_or_app; right; now right|].
    apply (Hne k' c'). now right.
Qed.

(** X3. When one bitstring has a count above all the others, the answer
    does not depend on the iteration order of the mapping. *)
Theorem interpret_measurement_order_independent
    (ms ms' : list (string * Z)) (k : string) (c : Z) :
  List.NoDup (map fst ms) -> Permutation ms ms' ->
  In (k, c) ms -> is_bitstring k = true ->
  (forall k' c', In (k', c') ms -> k' <> k -> c' < c) ->
  DeutschJozsa.interpret_measurement ms' = DeutschJozsa.interpret_measurement ms /\
  DeutschJozsa.interpret_measurement ms =
    Ok (if all_zeros k then "constant" else "balanced").
Proof.
  intros Hnd Hperm Hin Hk Hstrict.
  rewrite (strict_max_decides ms k c) by assumption.
  split; [|reflexivity].
  apply (strict_max_decides ms' k c); auto.
  - eapply Permutation_NoDup; [|exact Hnd]. now apply Permutation_map.
  - eapply Permutation_in; eauto.
  - intros k' c' H. apply (Hstrict k' c'). eapply Permutation_in; [|exact H].
    now apply Permutation_sym.
Qed.

(** X1. [interpret_measurement] raises [ValueError] on an empty mapping,
    raises nothing but [ValueError], and when it returns the mapping is not
    empty and the answer is "constant" or "balanced". *)
Theorem interpret_measurement_outcomes (ms : list (string * Z)) :
  (ms = [] -> DeutschJozsa.interpret_measurement ms = Raise ValueError) /\
  (forall r, DeutschJozsa.interpret_measurement ms = Ok r ->
             ms <> [] /\ (r = "constant" \/ r = "balanced")) /\
  (forall e, DeutschJozsa.interpret_measurement ms = Raise e -> e = ValueError).
Proof.
  unfold DeutschJozsa.interpret_measurement. split; [intros ->; reflexivity|].
  destruct ms as [|kc l]; cbn [py_max bind].
  - split; [discriminate|]. intros e H. now injection H.
  - unfold py_int.
    match goal with |- context [match ?p with Some _ => _ | None => _ end] =>
      destruct p as [z|] end; cbn [bind].
    + destruct (z =? 0); split; intros x H; try discriminate;
        injection H as <-; (split; [discriminate|auto]).
    + split; [discriminate|]. intros e H. now injection H.
Qed.

End MoreInterpretMeasurement.

(* ================================================================== *)
(** * Deutsch-Jozsa: more on the circuit and the run                    *)
(* ================================================================== *)

Section MoreConstructCircuit.
Import Terra DeutschJozsa.

Lemma bits_of_length (r : register) : List.length (bits_of r) = reg_size r.
Proof. unfold bits_of. now rewrite List.length_map, List.length_seq. Qed.

Lemma measurement_data (o : Oracle) :
  data (qc_measurement o) =
  map (measure_at (variable_register o) (measurement_cr o))
      (seq 0 (reg_size (variable_register o))).
Proof.
  unfold qc_measurement, measure, append, bits_of. cbn [data new_circuit app].
  cbn [measurement_cr ClassicalRegister reg_size].
  generalize (seq 0 (reg_size (variable_register o))) as l.
  induction l as [|i l IH]; [reflexivity|]. cbn [map combine]. now rewrite IH.
Qed.

Lemma preoracle_length (o : Oracle) :
  List.length (data (qc_preoracle o)) =
  (reg_size (variable_register o) + 2 * reg_size (output_register o) + 1)%nat.
Proof.
  unfold qc_preoracle, barrier, h, x, append. cbn [data new_circuit app].
  rewrite !List.length_app, !List.length_map, !bits_of_length. simpl. lia.
Qed.

Lemma postoracle_length (o : Oracle) :
  List.length (data (qc_postoracle o)) = (reg_size (variable_register o) + 1)%nat.
Proof.
  unfold qc_postoracle, barrier, h, append. cbn [data new_circuit app].
  rewrite !List.length_app, !List.length_map, !bits_of_length. simpl. lia.
Qed.

(** X4. For variable and output registers of [n] and [m] qubits the
    circuit built has [3 n + 2 m + 2] instructions besides those of the
    oracle's circuit. *)
Theorem construct_circuit_size (o : Oracle) (hp : heap) :
  oracle_wf o = true ->
  exists c self' hp' qc,
    construct_circuit (__init__ o) hp = Ok (c, self', hp') /\
    deref hp' c = Some qc /\
    List.length (data qc) =
      (3 * reg_size (variable_register o) + 2 * reg_size (output_register o) + 2
       + List.length (data (circuit o)))%nat.
Proof.
  intros Hwf.
  destruct (construct_circuit_first o hp Hwf) as (s1 & s2 & s3 & _ & _ & _ & D & E).
  eexists _, _, _, s3. split; [exact E|]. split.
  { unfold deref. rewrite nth_error_app2 by lia.
    replace (List.length hp + 5 - List.length hp)%nat with 5%nat by lia. reflexivity. }
  rewrite D, !List.length_app, preoracle_length, postoracle_length, measurement_data,
    List.length_map, List.length_seq. lia.
Qed.

Lemma filter_no_measure (l : list instruction) :
  Forall (fun ins => op_name ins <> "measure") l ->
  List.filter (fun ins => String.eqb (op_name ins) "measure") l = [].
Proof.
  induction 1 as [|ins l Hins Hl IH]; [reflexivity|].
  cbn [List.filter]. apply String.eqb_neq in Hins. now rewrite Hins.
Qed.

Lemma filter_measurements (v m : register) (l : list nat) :
  List.filter (fun ins => String.eqb (op_name ins) "measure") (map (measure_at v m) l)
  = map (measure_at v m) l.
Proof.
  induction l as [|i l IH]; [reflexivity|].
  cbn [map List.filter measure_at op_name]. rewrite String.eqb_refl. now rewrite IH.
Qed.

Lemma built_segments_no_measure (o : Oracle) :
  Forall (fun ins => op_name ins <> "measure")
         (data (qc_preoracle o) ++ data (qc_postoracle o)).
Proof.
  apply Forall_app. split.
  - unfold qc_preoracle, barrier, h, x, append. cbn [data new_circuit app].
    rewrite !Forall_app. repeat split;
      try (apply List.Forall_forall; intros ins Hin;
           apply in_map_iff in Hin as (q & <- & _); discriminate).
    repeat constructor. discriminate.
  - unfold qc_postoracle, barrier, h, append. cbn [data new_circuit app].
    rewrite !Forall_app. repeat split;
      try (apply List.Forall_forall; intros ins Hin;
           apply in_map_iff in Hin as (q & <- & _); discriminate).
    repeat constructor. discriminate.
Qed.

(** X5. The circuit built ends with the measurements, one for each qubit
    of the variable register in index order, qubit [i] measured into bit
    [i] of the register "m".  The two segments [construct_circuit] builds
    before, the preparation and the interference, contain no measurement;
    the circuit of the oracle is the oracle's own and may contain some:
    when it contains none, the measurements of the whole circuit are
    exactly the final ones. *)
Theorem construct_circuit_measures_last (o : Oracle) (hp : heap) :
  oracle_wf o = true ->
  exists c self' hp' qc front,
    construct_circuit (__init__ o) hp = Ok (c, self', hp') /\
    deref hp' c = Some qc /\
    data qc = front ++ map (measure_at (variable_register o) (measurement_cr o))
                           (seq 0 (reg_size (variable_register o))) /\
    Forall (fun ins => op_name ins <> "measure")
           (data (qc_preoracle o) ++ data (qc_postoracle o)) /\
    front = data (qc_preoracle o) ++ data (circuit o) ++ data (qc_postoracle o) /\
    (forall i, (i < reg_size (variable_register o))%nat ->
       nth_error (data qc) (List.length front + i) =
         Some (measure_at (variable_register o) (measurement_cr o) i)) /\
    (Forall (fun ins => op_name ins <> "measure") (data (circuit o)) ->
     List.filter (fun ins => String.eqb (op_name ins) "measure") (data qc) =
       map (measure_at (variable_register o) (measurement_cr o))
           (seq 0 (reg_size (variable_register o)))).
Proof.
  intros Hwf.
  destruct (construct_circuit_first o hp Hwf) as (s1 & s2 & s3 & _ & _ & _ & D & E).
  pose proof (built_segments_no_measure o) as Hbuilt.
  eexists _, _, _, s3, _. split; [exact E|]. split.
  { unfold deref. rewrite nth_error_app2 by lia.
    replace (List.length hp + 5 - List.length hp)%nat with 5%nat by lia. reflexivity. }
  split; [|split; [exact Hbuilt|split; [reflexivity|split]]].
  - rewrite D, measurement_data, !app_assoc. reflexivity.
  - intros i Hi. rewrite D, measurement_data, !app_assoc.
    rewrite nth_error_app2 by (rewrite !List.length_app; lia).
    replace (_ - _)%nat with i by (rewrite !List.length_app; lia).
    rewrite nth_error_map, nth_error_seq.
    apply Nat.ltb_lt in Hi. rewrite Hi. reflexivity.
  - intros Horacle. apply Forall_app in Hbuilt as [Hpre Hpost].
    rewrite D, measurement_data, !List.filter_app.
    rewrite (filter_no_measure _ Hpre), (filter_no_measure _ Horacle),
      (filter_no_measure _ Hpost), filter_measurements. reflexivity.
Qed.

End MoreConstructCircuit.

Section DJRun.
Import Terra DeutschJozsa DeutschJozsaRun.

(** The run on a fresh instance, when the classification returns. *)
Lemma dj_run_fresh (o : Oracle) (hp : heap) (measurements : list (string * Z))
    (answer : string) :
  oracle_wf o = true ->
  DeutschJozsa.interpret_measurement measurements = Ok answer ->
  exists qc hp',
    let c := (List.length hp + 5)%nat in
    let ret := <["result" := VResult answer]>
                 (<["measurements" := VCounts measurements]>
                    (<["circuit" := VCircuit c]> ∅)) in
    _run (DeutschJozsaRun.__init__ o) hp measurements =
      Ok (ret, {| alg := {| _oracle := o; _circuit := Some c |}; _ret := ret |}, hp') /\
    deref hp' c = Some qc.
Proof.
  intros Hwf Hres.
  destruct (construct_circuit_first o hp Hwf) as (s1 & s2 & s3 & _ & _ & _ & _ & E).
  unfold _run, DeutschJozsaRun.__init__. cbn [alg DeutschJozsaRun._ret].
  rewrite E. cbn [bind fst snd]. rewrite Hres. cbn [bind].
  eexists s3, _. cbv zeta. split; [reflexivity|].
  unfold deref. rewrite nth_error_app2 by lia.
  replace (List.length hp + 5 - List.length hp)%nat with 5%nat by lia. reflexivity.
Qed.

Lemma dj_run_built (self : DeutschJozsaRun.t) (hp : heap) (c : ref)
    (measurements : list (string * Z)) (answer : string) :
  _circuit (alg self) = Some c ->
  DeutschJozsa.interpret_measurement measurements = Ok answer ->
  exists ret,
    _run self hp measurements = Ok (ret, {| alg := alg self; _ret := ret |}, hp) /\
    ret !! "circuit" = Some (VCircuit c) /\
    ret !! "measurements" = Some (VCounts measurements) /\
    ret !! "result" = Some (VResult answer) /\
    forall key, key <> "circuit" -> key <> "measurements" -> key <> "result" ->
                ret !! key = _ret self !! key.
Proof.
  intros Hc Hres. unfold _run.
  rewrite (construct_circuit_stored (alg self) c hp Hc). cbn [bind fst snd].
  rewrite Hres. cbn [bind]. eexists. split; [reflexivity|].
  split; [now simplify_map_eq|]. split; [now simplify_map_eq|].
  split; [now simplify_map_eq|].
  intros key H1 H2 H3. now simplify_map_eq.
Qed.

(** X6. The first run on a fresh instance builds the circuit and returns
    the dictionary of exactly three entries: the circuit built, the counts
    and the answer [interpret_measurement] gives for these counts. *)
Theorem dj_run_first (o : Oracle) (hp : heap) (measurements : list (string * Z)) :
  oracle_wf o = true ->
  measurements <> [] ->
  Forall (fun kc => is_bitstring (fst kc) = true) measurements ->
  exists ret self' hp' c answer,
    _run (DeutschJozsaRun.__init__ o) hp measurements = Ok (ret, self', hp') /\
    _ret self' = ret /\
    _circuit (alg self') = Some c /\
    is_Some (deref hp' c) /\
    DeutschJozsa.interpret_measurement measurements = Ok answer /\
    ret = <["result" := VResult answer]>
            (<["measurements" := VCounts measurements]>
               (<["circuit" := VCircuit c]> ∅)) /\
    dom ret = ({["circuit"; "measurements"; "result"]} : gset string).
Proof.
  intros Hwf Hne Hkeys.
  destruct (interpret_measurement_selects measurements Hne Hkeys)
    as (top & count & _ & _ & Hres).
  destruct (dj_run_fresh o hp measurements _ Hwf Hres) as (qc & hp' & Hrun & Hqc).
  cbv zeta in Hrun, Hqc.
  eexists _, _, hp', (List.length hp + 5)%nat, _. split; [exact Hrun|].
  cbn [alg DeutschJozsaRun._ret _circuit].
  split; [reflexivity|]. split; [reflexivity|]. split; [now exists qc|].
  split; [exact Hres|]. split; [reflexivity|].
  rewrite !dom_insert_L, dom_empty_L. set_solver.
Qed.

(** X7. A second run on the same instance builds nothing: the store is
    unchanged, the dictionary keeps the circuit of the first run, and its
    counts and answer are those of the second run. *)
Theorem dj_run_twice (o : Oracle) (hp : heap)
    (first second : list (string * Z)) (answer : string) :
  oracle_wf o = true ->
  first <> [] ->
  Forall (fun kc => is_bitstring (fst kc) = true) first ->
  DeutschJozsa.interpret_measurement second = Ok answer ->
  exists ret1 self1 hp1 c ret2 self2,
    _run (DeutschJozsaRun.__init__ o) hp first = Ok (ret1, self1, hp1) /\
    _run self1 hp1 second = Ok (ret2, self2, hp1) /\
    ret1 !! "circuit" = Some (VCircuit c) /\
    ret2 !! "circuit" = Some (VCircuit c) /\
    _circuit (alg self2) = Some c /\
    ret2 !! "measurements" = Some (VCounts second) /\
    ret2 !! "result" = Some (VResult answer) /\
    dom ret2 = ({["circuit"; "measurements"; "result"]} : gset string).
Proof.
  intros Hwf Hne Hkeys Hsecond.
  destruct (interpret_measurement_selects first Hne Hkeys)
    as (top & count & _ & _ & Hfirst).
  destruct (dj_run_fresh o hp first _ Hwf Hfirst) as (qc & hp1 & Hrun1 & _).
  cbv zeta in Hrun1.
  set (c := (List.length hp + 5)%nat) in *.
  match type of Hrun1 with _ = Ok (?r, ?i, _) => set (ret1 := r) in *; set (self1 := i) in * end.
  assert (Hret : DeutschJozsaRun._ret self1 = ret1) by reflexivity.
  assert (Hc : _circuit (alg self1) = Some c) by reflexivity.
  assert (Hdom : dom ret1 = ({["circuit"; "measurements"; "result"]} : gset string)).
  { unfold ret1. rewrite !dom_insert_L, dom_empty_L. set_solver. }
  destruct (dj_run_built self1 hp1 c second answer Hc Hsecond)
    as (ret2 & Hrun2 & H2c & H2m & H2r & Hother).
  exists ret1, self1, hp1, c, ret2, {| alg := alg self1; _ret := ret2 |}.
  split; [exact Hrun1|]. split; [exact Hrun2|].
  split; [unfold ret1; now simplify_map_eq|].
  split; [exact H2c|]. split; [exact Hc|]. split; [exact H2m|]. split; [exact H2r|].
  apply set_eq. intros key. rewrite elem_of_dom.
  destruct (decide (key = "circuit")) as [-> | N1]; [rewrite H2c; clear; set_solver|].
  destruct (decide (key = "measurements")) as [-> | N2]; [rewrite H2m; clear; set_solver|].
  destruct (decide (key = "result")) as [-> | N3]; [rewrite H2r; clear; set_solver|].
  rewrite (Hother key N1 N2 N3), Hret, <- elem_of_dom, Hdom. reflexivity.
Qed.

End DJRun.

(* ================================================================== *)
(** * The initial state: construction followed by the circuit          *)
(* ================================================================== *)

Section MoreVarFormBased.

Import VarFormBased.

(** X8. On an instance the constructor returned, mode 'circuit' calls the
    circuit builder of the variational form with the register and a
    parameter list of exactly the declared number of parameters, and a
    circuit is returned for no other mode. *)
Theorem VarFormBased_init_then_circuit (var_form : VariationalForm)
    (params : list pynum) (self : t) (register : option Terra.register) :
  __init__ var_form params = Ok self ->
  num_parameters var_form = Z.of_nat (List.length params) /\
  construct_circuit self "circuit" register =
    vf_construct_circuit var_form params register /\
  forall mode qc, construct_circuit self mode register = Ok qc ->
    mode = "circuit" /\ vf_construct_circuit var_form params register = Ok qc.
Proof.
  unfold __init__. intros H.
  destruct (num_parameters var_form =? Z.of_nat (List.length params)) eqn:E;
    [|discriminate].
  simpl in H. injection H as H. subst self. apply Z.eqb_eq in E.
  split; [exact E|]. split; [reflexivity|].
  intros mode qc. unfold construct_circuit. cbn [_var_form _var_form_params].
  destruct (String.eqb mode "vector"); [discriminate|].
  destruct (String.eqb mode "circuit") eqn:Ec; [|discriminate].
  apply String.eqb_eq in Ec. now split.
Qed.

End MoreVarFormBased.

(* ================================================================== *)
(** * Phase estimation: the binary fractions of the constructor         *)
(* ================================================================== *)

Section MoreConstruction.

Import QPE.

Context {coeff : Type} (coeff_abs : coeff -> number)
        (coeff_scale : coeff -> number -> result coeff)
        {InitialState IQFT : Type}.

Lemma fraction_exact_small :
  forallb fraction_exact_check (py_range 1 1075) = true.
Proof. vm_compute. reflexivity. Qed.

Lemma fraction_underflow (p : Z) : 1075 <= p -> fraction p = fzero.
Proof.
  intros Hp. unfold fraction. destruct (Z.eq_dec p 1075) as [-> | Hne].
  - vm_compute. reflexivity.
  - now rewrite int_truediv_tiny by lia.
Qed.

Lemma fraction_exact (p : Z) :
  1 <= p <= 1074 -> (SF2Q (fraction p) == 1 / inject_Z (2 ^ p))%Q.
Proof.
  intros Hp. pose proof fraction_exact_small as H.
  rewrite List.forallb_forall in H. specialize (H p (py_range_In 1 1075 p ltac:(lia))).
  unfold fraction_exact_check in H. unfold fraction.
  destruct (int_truediv 1 (2 ^ p)); [|discriminate]. now apply Qeq_bool_eq.
Qed.

Lemma mapM_length {A B : Type} (f : A -> result B) (l : list A) (l' : list B) :
  mapM f l = Ok l' -> List.length l' = List.length l.
Proof.
  revert l'. induction l as [|a l IH]; intros l' H; simpl in H.
  - injection H as <-. reflexivity.
  - destruct (f a); [|discriminate]. cbn [bind] in H.
    destruct (mapM f l); [|discriminate]. cbn [bind] in H.
    injection H as <-. simpl. f_equal. now apply IH.
Qed.

(** X9. The constructor stores one binary fraction for each ancilla, and
    as many scaled terms as the operator has; the fraction at index [i] is
    the double that denotes [1 / 2^(i+1)] exactly as long as [i + 1] is at
    most 1074, and is [0.0] from 1075 on. *)
Theorem init_binary_fractions (operator : Operator coeff) (state_in : InitialState)
    (iqft : IQFT) (nts n : Z) (mode : string) (order : Z) (sh : bool) (self : t coeff) :
  __init__ coeff_abs coeff_scale operator state_in iqft nts n mode order sh = Ok self ->
  _num_ancillae self = n /\
  List.length (_binary_fractions self) = Z.to_nat n /\
  List.length (_pauli_list self) = List.length (get_flat_pauli_list operator) /\
  forall i, (i < Z.to_nat n)%nat ->
    exists f,
      nth_error (_binary_fractions self) i = Some (PyFloat f) /\
      (Z.of_nat i + 1 <= 1074 -> (SF2Q f == 1 / inject_Z (2 ^ (Z.of_nat i + 1)))%Q) /\
      (1075 <= Z.of_nat i + 1 -> f = fzero).
Proof.
  intros H. rewrite init_run in H.
  destruct (params_ok nts n mode order); [|discriminate].
  destruct (num_sum _); [|discriminate]. cbn [bind] in H.
  destruct (num_truediv _ _); [|discriminate]. cbn [bind] in H.
  destruct (mapM _ _) as [pl|] eqn:Epl; [|discriminate]. cbn [bind] in H.
  injection H as H. subst self. cbn [_num_ancillae _binary_fractions _pauli_list].
  split; [reflexivity|].
  split; [now rewrite List.length_map, List.length_seq|].
  split; [exact (mapM_length _ _ _ Epl)|].
  intros i Hi. exists (fraction (1 + Z.of_nat i)).
  split; [|split].
  - rewrite nth_error_map, nth_error_seq.
    apply Nat.ltb_lt in Hi. rewrite Hi. reflexivity.
  - intros Hb. replace (Z.of_nat i + 1) with (1 + Z.of_nat i) by lia.
    apply fraction_exact. lia.
  - intros Hb. apply fraction_underflow. lia.
Qed.

End MoreConstruction.

(* ================================================================== *)
(** * Phase estimation: the order of the counts                         *)
(* ================================================================== *)

Section CountsOrder.

Import QPE.

Lemma ascii_compare_lt (a b : ascii) :
  Ascii.compare a b = Lt <-> (N_of_ascii a < N_of_ascii b)%N.
Proof. unfold Ascii.compare. apply N.compare_lt_iff. Qed.

Lemma string_compare_trans (a : string) :
  forall b c, String.compare a b <> Gt -> String.compare b c <> Gt ->
              String.compare a c <> Gt.
Proof.
  induction a as [|x a IH]; intros b c Hab Hbc.
  - destruct c; discriminate.
  - destruct b as [|y b]; [simpl in Hab; congruence|].
    destruct c as [|z c]; [simpl in Hbc; congruence|].
    simpl in *.
    destruct (Ascii.compare x y) eqn:Exy; try congruence;
      destruct (Ascii.compare y z) eqn:Eyz; try congruence.
    + apply Ascii.compare_eq_iff in Exy, Eyz. subst.
      assert (E : Ascii.compare z z = Eq) by (unfold Ascii.compare; apply N.compare_refl).
      rewrite E. now apply (IH b c).
    + apply Ascii.compare_eq_iff in Exy. subst. now rewrite Eyz.
    + apply Ascii.compare_eq_iff in Eyz. subst. now rewrite Exy.
    + apply ascii_compare_lt in Exy. apply ascii_compare_lt in Eyz.
      assert (E : Ascii.compare x z = Lt).
      { apply ascii_compare_lt. eapply N.lt_trans; eassumption. }
      now rewrite E.
Qed.

Lemma string_leb_le (a b : string) : String.leb a b = true <-> String.compare a b <> Gt.
Proof. unfold String.leb. destruct (String.compare a b); split; congruence. Qed.

Lemma string_leb_trans (a b c : string) :
  String.leb a b = true -> String.leb b c = true -> String.leb a c = true.
Proof. rewrite !string_leb_le. apply string_compare_trans. Qed.

Lemma tuple_leb_spec (a b : Z * string) :
  Np.tuple_leb a b = true <->
  fst a < fst b \/ (fst a = fst b /\ String.leb (snd a) (snd b) = true).
Proof.
  unfold Np.tuple_leb. rewrite orb_true_iff, andb_true_iff, Z.ltb_lt, Z.eqb_eq.
  reflexivity.
Qed.

Lemma tuple_leb_trans (a b c : Z * string) :
  Np.tuple_leb a b = true -> Np.tuple_leb b c = true -> Np.tuple_leb a c = true.
Proof.
  rewrite !tuple_leb_spec. intros [H1|[H1 L1]] [H2|[H2 L2]]; try (left; lia).
  right. split; [lia|]. eapply string_leb_trans; eauto.
Qed.

Lemma tuple_leb_total (a b : Z * string) :
  Np.tuple_leb a b = false -> Np.tuple_leb b a = true.
Proof.
  intros H. apply tuple_leb_spec.
  destruct (Z.lt_trichotomy (fst a) (fst b)) as [Hlt|[Heq|Hgt]].
  - exfalso. assert (E : Np.tuple_leb a b = true) by (apply tuple_leb_spec; now left).
    congruence.
  - right. split; [lia|]. destruct (String.leb_total (snd a) (snd b)) as [L|L]; [|exact L].
    exfalso. assert (E : Np.tuple_leb a b = true) by (apply tuple_leb_spec; now right).
    congruence.
  - now left.
Qed.

Lemma tuple_leb_antisym (a b : Z * string) :
  Np.tuple_leb a b = true -> Np.tuple_leb b a = true -> a = b.
Proof.
  rewrite !tuple_leb_spec. intros [H1|[H1 L1]] [H2|[H2 L2]]; try lia.
  destruct a, b; simpl in *. f_equal; [exact H1|]. now apply String.leb_antisym.
Qed.

Lemma insert_sorted_ordered (a : Z * string) (l : list (Z * string)) :
  StronglySorted tuple_le l -> StronglySorted tuple_le (Np.insert_sorted a l).
Proof.
  induction 1 as [|b l Hl IH Hb]; simpl.
  - constructor; constructor.
  - destruct (Np.tuple_leb b a) eqn:E.
    + constructor; [exact IH|].
      apply List.Forall_forall. intros x Hx. apply In_insert_sorted in Hx as [-> | Hx].
      * exact E.
      * rewrite List.Forall_forall in Hb. now apply Hb.
    + apply tuple_leb_total in E. constructor; [now constructor|].
      constructor; [exact E|].
      apply List.Forall_forall. intros x Hx. rewrite List.Forall_forall in Hb.
      exact (tuple_leb_trans a b x E (Hb x Hx)).
Qed.

Lemma sorted_ordered (l : list (Z * string)) : StronglySorted tuple_le (Np.sorted l).
Proof.
  induction l as [|a l IH]; simpl; [constructor|]. now apply insert_sorted_ordered.
Qed.

Lemma ordered_last (l : list (Z * string)) (top : Z * string) :
  StronglySorted tuple_le (l ++ [top]) -> forall x, In x l -> tuple_le x top.
Proof.
  induction l as [|a l IH]; intros H x Hx; [destruct Hx|].
  simpl in H. inversion H as [|? ? Hs Hf]; subst.
  destruct Hx as [ <- | Hx ].
  - rewrite List.Forall_forall in Hf. apply Hf. apply in_or_app. right. now left.
  - now apply IH.
Qed.

(** The greatest tuple is the head of the reversed sorted list. *)
Lemma sorted_top (tuples : list (Z * string)) :
  tuples <> [] ->
  exists top rest,
    rev (Np.sorted tuples) = top :: rest /\ In top tuples /\
    forall x, In x tuples -> Np.tuple_leb x top = true.
Proof.
  intros Hne. destruct (rev (Np.sorted tuples)) as [|top rest] eqn:E.
  - exfalso. destruct tuples as [|t l]; [congruence|].
    assert (H : In t (Np.sorted (t :: l))) by (apply In_sorted; now left).
    apply in_rev in H. rewrite E in H. destruct H.
  - assert (Es : Np.sorted tuples = rev rest ++ [top]).
    { rewrite <- (rev_involutive (Np.sorted tuples)), E. reflexivity. }
    exists top, rest. split; [reflexivity|]. split.
    + apply In_sorted. rewrite Es. apply in_or_app. right. now left.
    + intros x Hx. apply In_sorted in Hx. rewrite Es in Hx.
      apply in_app_or in Hx as [Hx|[Hx|[]]].
      * pose proof (sorted_ordered tuples) as Hs. rewrite Es in Hs.
        exact (ordered_last _ _ Hs x Hx).
      * subst x. apply tuple_leb_spec. right. split; [reflexivity|].
        destruct (String.leb_total (snd top) (snd top)); assumption.
Qed.

(** X10. In counts mode the label is the reversed key of an outcome whose
    count no other outcome exceeds, and among the outcomes of that count
    its key is the largest in the order of Python's strings. *)
Theorem counts_label_largest_key (ancilla_counts : list (string * Z)) :
  ancilla_counts <> [] ->
  exists key count,
    In (key, count) ancilla_counts /\
    counts_label ancilla_counts = Ok (str_rev key) /\
    forall k c, In (k, c) ancilla_counts ->
      c < count \/ (c = count /\ String.leb k key = true).
Proof.
  intros Hne. unfold counts_label.
  set (tuples := map (fun kc : string * Z => (snd kc, fst kc)) ancilla_counts).
  assert (Hin : forall k c, In (c, k) tuples <-> In (k, c) ancilla_counts).
  { intros k c. unfold tuples. rewrite in_map_iff. split.
    - intros ([k' c'] & E & H). simpl in E. now inversion E; subst.
    - intros H. now exists (k, c). }
  destruct (sorted_top tuples) as ([count key] & rest & E & Htop & Hmax).
  { unfold tuples. destruct ancilla_counts; [congruence|discriminate]. }
  rewrite E. exists key, count. split; [now apply Hin|]. split; [reflexivity|].
  intros k c Hk. apply Hin in Hk. specialize (Hmax (c, k) Hk).
  now apply tuple_leb_spec in Hmax.
Qed.

(** X11. In counts mode the label does not depend on the iteration order
    of the counts. *)
Theorem counts_label_order_independent (ancilla_counts reordered : list (string * Z)) :
  Permutation ancilla_counts reordered ->
  counts_label reordered = counts_label ancilla_counts.
Proof.
  intros Hperm. unfold counts_label.
  set (f := fun kc : string * Z => (snd kc, fst kc)).
  assert (Hp : Permutation (map f ancilla_counts) (map f reordered))
    by now apply Permutation_map.
  destruct ancilla_counts as [|kc l].
  - apply Permutation_nil in Hperm. subst. reflexivity.
  - destruct (sorted_top (map f (kc :: l))) as (t1 & r1 & E1 & H1 & M1); [discriminate|].
    destruct (sorted_top (map f reordered)) as (t2 & r2 & E2 & H2 & M2).
    { intros E. rewrite E in Hp. apply Permutation_sym, Permutation_nil in Hp.
      discriminate. }
    rewrite E1, E2.
    assert (Et : t1 = t2).
    { apply tuple_leb_antisym.
      - apply M2. eapply Permutation_in; eauto.
      - apply M1. eapply Permutation_in; [apply Permutation_sym|]; eauto. }
    now subst.
Qed.

End CountsOrder.

(* ================================================================== *)
(** * Phase estimation: the index chosen in state-vector mode           *)
(* ================================================================== *)

Section StatevectorMore.

Import QPE.

Lemma where_eq_first (a : list Q) (v : Q) :
  forall s i rest, Np.where_eq a v s = i :: rest ->
  exists idx amp,
    i = (s + idx)%nat /\ nth_error a idx = Some amp /\ (amp == v)%Q /\
    forall j w, (j < idx)%nat -> nth_error a j = Some w -> ~ (w == v)%Q.
Proof.
  induction a as [|x a IH]; intros s i rest H; [discriminate|].
  simpl in H. destruct (Qeq_bool x v) eqn:E.
  - injection H as <- _. exists 0%nat, x. split; [lia|]. split; [reflexivity|].
    split; [now apply Qeq_bool_eq|]. intros j w Hj. lia.
  - destruct (IH (S s) i rest H) as (idx & amp & -> & Hn & Ha & Hfirst).
    exists (S idx), amp. split; [lia|]. split; [exact Hn|]. split; [exact Ha|].
    intros j w Hj Hw. destruct j as [|j].
    + simpl in Hw. injection Hw as <-. now apply Qeq_bool_neq.
    + simpl in Hw. apply (Hfirst j w); [lia|exact Hw].
Qed.

(** X12. On a diagonal without negative entries the label is the reversed
    binary representation of the first index that holds the largest
    entry. *)
Theorem statevector_label_first_maximum (num_ancillae : Z) (diag : list Q) :
  diag <> [] ->
  (forall v, In v diag -> (0 <= v)%Q) ->
  exists idx amp,
    nth_error diag idx = Some amp /\
    (forall v, In v diag -> (v <= amp)%Q) /\
    (forall j w, (j < idx)%nat -> nth_error diag j = Some w -> (w < amp)%Q) /\
    statevector_label num_ancillae diag =
      Ok (str_rev (Np.binary_repr idx num_ancillae)).
Proof.
  intros Hne Hpos. destruct diag as [|d diag]; [congruence|].
  unfold statevector_label. cbn [Np.min Np.max bind].
  destruct (min_from_spec diag d) as [Hmin_in Hmin].
  destruct (max_from_spec diag d) as [Hmax_in Hmax].
  set (lo := Np.min_from d diag) in *. set (hi := Np.max_from d diag) in *.
  set (amp0 := if Np.Qltb (Qabs lo) (Qabs hi) then hi else lo).
  assert (Hlo : (0 <= lo)%Q) by now apply Hpos.
  assert (Hlh : (lo <= hi)%Q) by now apply Hmax.
  assert (Hamp : (amp0 == hi)%Q).
  { unfold amp0. destruct (Np.Qltb (Qabs lo) (Qabs hi)) eqn:E; [reflexivity|].
    apply Qltb_false in E. rewrite !Qabs_pos in E by lra. lra. }
  assert (Hin : In amp0 (d :: diag)).
  { unfold amp0. destruct (Np.Qltb (Qabs lo) (Qabs hi)); assumption. }
  destruct (where_eq_spec (d :: diag) amp0 Hin 0) as (i0 & a0 & rest & Hw & _ & _).
  destruct (where_eq_first (d :: diag) amp0 0 _ rest Hw)
    as (idx & amp & Hi & Hn & Ha & Hfirst).
  rewrite Hw, Hi. exists idx, amp. split; [exact Hn|].
  split; [|split; [|reflexivity]].
  - intros v Hv. specialize (Hmax v Hv). rewrite Ha, Hamp. exact Hmax.
  - intros j w Hj Hwj. specialize (Hfirst j w Hj Hwj).
    assert (Hwin : In w (d :: diag)) by (eapply nth_error_In; eauto).
    specialize (Hmax w Hwin). rewrite Ha, Hamp in *.
    apply Qle_lteq in Hmax as [Hlt|Heq]; [exact Hlt|contradiction].
Qed.

Lemma fold_zeros (k : nat) (chars : list ascii) :
  binary_value (repeat "0"%char k ++ chars) = binary_value chars.
Proof.
  unfold binary_value. rewrite fold_left_app. f_equal.
  induction k as [|k IH]; [reflexivity|]. simpl. exact IH.
Qed.

Lemma pos_bin_value (p : positive) :
  forall acc,
  fold_left (fun a c => 2 * a + bit_value c) (list_ascii_of_string (Np.pos_bin p acc)) 0 =
  fold_left (fun a c => 2 * a + bit_value c) (list_ascii_of_string acc) (Z.pos p).
Proof.
  induction p as [p IH|p IH|]; intros acc; simpl Np.pos_bin.
  - rewrite IH. simpl. f_equal.
  - rewrite IH. simpl. f_equal.
  - simpl. reflexivity.
Qed.

Lemma binary_repr_value (idx : nat) (n : Z) :
  binary_value (list_ascii_of_string (Np.binary_repr idx n)) = Z.of_nat idx.
Proof.
  unfold Np.binary_repr, Np.zfill. rewrite list_ascii_append, zeros_chars, fold_zeros.
  rewrite <- (nat_N_Z idx).
  unfold binary_value, Np.bin. destruct (N.of_nat idx) as [|p].
  - reflexivity.
  - rewrite pos_bin_value. reflexivity.
Qed.

(** X13. In state-vector mode a label that is returned is the reversed
    binary representation of an index of the diagonal, and read backwards
    as a binary numeral it spells that index. *)
Theorem statevector_label_spells_index (num_ancillae : Z) (diag : list Q) (label : string) :
  statevector_label num_ancillae diag = Ok label ->
  exists idx amp,
    nth_error diag idx = Some amp /\
    label = str_rev (Np.binary_repr idx num_ancillae) /\
    binary_value (rev (list_ascii_of_string label)) = Z.of_nat idx.
Proof.
  unfold statevector_label. intros H.
  destruct (Np.min diag) as [lo|]; [|discriminate]. cbn [bind] in H.
  destruct (Np.max diag) as [hi|]; [|discriminate]. cbn [bind] in H.
  destruct (Np.where_eq diag _ 0) as [|i rest] eqn:Hw; [discriminate|].
  injection H as <-.
  destruct (where_eq_first diag _ 0 i rest Hw) as (idx & amp & -> & Hn & _ & _).
  exists idx, amp. split; [exact Hn|]. split; [reflexivity|].
  rewrite str_rev_chars, rev_involutive. apply binary_repr_value.
Qed.

End StatevectorMore.

(* ================================================================== *)
(** * Phase estimation: the decoded fraction is exact up to 53 bits     *)
(* ================================================================== *)

Section Exact.

Import QPE.

Lemma Zdigits2_pos_log2 (x : Z) : 0 < x -> Zdigits2 x = Z.log2 x + 1.
Proof. intros H. destruct x as [|q|q]; try lia. apply Zdigits2_log2. Qed.

Lemma Zdigits2_mul_pow2 (m j : Z) :
  0 < m -> 0 <= j -> Zdigits2 (m * 2 ^ j) = Zdigits2 m + j.
Proof.
  intros Hm Hj. assert (0 < 2 ^ j) by (apply Z.pow_pos_nonneg; lia).
  rewrite !Zdigits2_pos_log2 by nia. rewrite Z.log2_mul_pow2 by lia. lia.
Qed.

Lemma shr_1_double (y : Z) :
  0 < y -> shr_1 (Build_shr_record (y * 2) false false) = Build_shr_record y false false.
Proof.
  intros H. destruct y as [|q|q]; try lia.
  replace (Z.pos q * 2) with (Z.pos q~0) by lia. reflexivity.
Qed.

Lemma iter_shr_exact (n : positive) :
  forall x, 0 < x ->
  SpecFloat.iter_pos shr_1 n (Build_shr_record (x * 2 ^ Z.pos n) false false) =
  Build_shr_record x false false.
Proof.
  induction n as [n IH|n IH|]; intros x Hx.
  - cbn [SpecFloat.iter_pos].
    assert (Hp : 0 < 2 ^ Z.pos n) by (apply Z.pow_pos_nonneg; lia).
    replace (x * 2 ^ Z.pos n~1) with ((x * 2 ^ Z.pos n * 2 ^ Z.pos n) * 2).
    2:{ rewrite (Pos2Z.inj_xI n), Z.add_1_r, Z.pow_succ_r, Z.pow_twice_r by lia. ring. }
    rewrite shr_1_double by nia. rewrite IH by nia. apply IH. exact Hx.
  - cbn [SpecFloat.iter_pos].
    assert (Hp : 0 < 2 ^ Z.pos n) by (apply Z.pow_pos_nonneg; lia).
    replace (x * 2 ^ Z.pos n~0) with (x * 2 ^ Z.pos n * 2 ^ Z.pos n).
    2:{ rewrite (Pos2Z.inj_xO n), Z.pow_twice_r. ring. }
    rewrite IH by nia. apply IH. exact Hx.
  - cbn [SpecFloat.iter_pos]. rewrite Z.pow_1_r. now apply shr_1_double.
Qed.

(** Rounding a 53-bit mantissa shifted left by [j] bits gives it back. *)
Lemma round_exact (m e j : Z) :
  0 < m -> Zdigits2 m = 53 -> 0 <= j -> -1074 <= e + j <= 971 ->
  binary_round_aux prec emax false (m * 2 ^ j) e loc_Exact =
  S754_finite false (Z.to_pos m) (e + j).
Proof.
  intros Hm Hd Hj He.
  assert (Hf : forall t, fexp prec emax (53 + t) - t = Z.max 0 (-1074 - t)).
  { intros t. unfold fexp, emin, prec, emax. lia. }
  unfold binary_round_aux, shr_fexp.
  rewrite Zdigits2_mul_pow2, Hd by lia.
  replace (53 + j + e) with (53 + (e + j)) by lia.
  assert (E1 : fexp prec emax (53 + (e + j)) - e = j).
  { unfold fexp, emin, prec, emax. lia. }
  rewrite E1. cbn [shr_record_of_loc].
  assert (Hs : shr (Build_shr_record (m * 2 ^ j) false false) e j =
               (Build_shr_record m false false, e + j)).
  { unfold shr. destruct j as [|jp|jp]; try lia.
    - rewrite Z.pow_0_r, Z.mul_1_r, Z.add_0_r. reflexivity.
    - now rewrite iter_shr_exact. }
  rewrite Hs. cbn [shr_m loc_of_shr_record round_nearest_even].
  rewrite Hd.
  assert (E2 : fexp prec emax (53 + (e + j)) - (e + j) = 0).
  { unfold fexp, emin, prec, emax. lia. }
  rewrite E2. cbn [shr shr_m].
  destruct m as [|q|q]; try lia. cbn [Z.to_pos].
  assert (El : (e + j <=? emax - prec) = true).
  { apply Z.leb_le. unfold emax, prec. lia. }
  now rewrite El.
Qed.

Lemma pos_iter_xO (m dd : positive) :
  Z.pos (Pos.iter xO m dd) = Z.pos m * 2 ^ Z.pos dd.
Proof.
  induction dd as [|dd IH] using Pos.peano_ind.
  - simpl. lia.
  - rewrite Pos.iter_succ, Pos2Z.inj_succ, Z.pow_succ_r by lia.
    rewrite (Pos2Z.inj_xO (Pos.iter xO m dd)), IH. ring.
Qed.

Lemma shl_align_fst (m : positive) (e e' : Z) :
  e' <= e -> Z.pos (fst (shl_align m e e')) = Z.pos m * 2 ^ (e - e').
Proof.
  intros H. unfold shl_align. destruct (e' - e) as [|q|q] eqn:E; try lia.
  - replace (e - e') with 0 by lia. simpl fst. lia.
  - simpl fst. rewrite pos_iter_xO. f_equal. f_equal. lia.
Qed.

Lemma shl_align_keep (m : positive) (e e' : Z) :
  e <= e' -> shl_align m e e' = (m, e).
Proof.
  intros H. unfold shl_align. destruct (e' - e) as [|q|q] eqn:E; try lia; reflexivity.
Qed.

(** Adding the bit of position [k + 1] to a fraction of [k] bits is exact. *)
Lemma add_bit (p : positive) (k : Z) :
  Z.pos (digits2_pos p) <= k -> k <= 52 ->
  SFadd prec emax (dyadic (Z.pos p) k) (S754_finite false 4503599627370496 (- k - 53)) =
  dyadic (Z.pos p~1) (k + 1).
Proof.
  intros Hd Hk. set (d := Z.pos (digits2_pos p)) in *.
  assert (Hd1 : 1 <= d) by (unfold d; lia).
  assert (Hdig : Zdigits2 (Z.pos p) = d) by reflexivity.
  assert (Hpow : 0 < 2 ^ (53 - d)) by (apply Z.pow_pos_nonneg; lia).
  unfold dyadic. fold d.
  replace (Z.pos (digits2_pos p~1)) with (d + 1) by (unfold d; simpl; lia).
  set (m1 := Z.to_pos (Z.pos p * 2 ^ (53 - d))).
  assert (Hm1 : Z.pos m1 = Z.pos p * 2 ^ (53 - d)) by (unfold m1; rewrite Z2Pos.id; lia).
  unfold SFadd.
  replace (Z.min (d - k - 53) (- k - 53)) with (- k - 53) by lia.
  cbn [cond_Zopp].
  rewrite (shl_align_fst m1 (d - k - 53) (- k - 53)) by lia.
  rewrite (shl_align_fst 4503599627370496 (- k - 53) (- k - 53)) by lia.
  replace (d - k - 53 - (- k - 53)) with d by lia.
  rewrite Z.sub_diag, Z.pow_0_r, Z.mul_1_r, Hm1.
  set (m' := Z.pos p~1 * 2 ^ (52 - d)).
  assert (Hp52 : 0 < 2 ^ (52 - d)) by (apply Z.pow_pos_nonneg; lia).
  assert (Hm' : 0 < m') by (unfold m'; nia).
  assert (HS : Z.pos p * 2 ^ (53 - d) * 2 ^ d + 4503599627370496 = m' * 2 ^ d).
  { unfold m'. rewrite <- !Z.mul_assoc, <- !Z.pow_add_r by lia.
    replace (53 - d + d) with 53 by lia. replace (52 - d + d) with 52 by lia.
    rewrite (Pos2Z.inj_xI p). change (2 ^ 53) with 9007199254740992.
    change (2 ^ 52) with 4503599627370496. lia. }
  rewrite HS.
  assert (Hdm : Zdigits2 m' = 53).
  { unfold m'. rewrite Zdigits2_mul_pow2 by lia.
    change (Zdigits2 (Z.pos p~1)) with (Z.pos (digits2_pos p~1)).
    replace (Z.pos (digits2_pos p~1)) with (d + 1) by (unfold d; simpl; lia). lia. }
  assert (Hpd : 0 < 2 ^ d) by (apply Z.pow_pos_nonneg; lia).
  destruct (m' * 2 ^ d) as [|s|s] eqn:Es; try nia.
  unfold binary_normalize, binary_round.
  assert (Hds : Z.pos (digits2_pos s) = 53 + d).
  { change (Z.pos (digits2_pos s)) with (Zdigits2 (Z.pos s)).
    rewrite <- Es, Zdigits2_mul_pow2, Hdm by lia. reflexivity. }
  rewrite Hds, shl_align_keep by (unfold fexp, emin, prec, emax; lia).
  rewrite <- Es, (round_exact m' (- k - 53) d) by lia.
  f_equal; [|lia]. unfold m'. do 3 f_equal. lia.
Qed.

Lemma add_zero_bit (p : positive) (k : Z) :
  Z.pos (digits2_pos p) <= 52 ->
  dyadic (Z.pos p~0) (k + 1) = dyadic (Z.pos p) k.
Proof.
  intros Hd. unfold dyadic. set (d := Z.pos (digits2_pos p)) in *.
  replace (Z.pos (digits2_pos p~0)) with (d + 1) by (unfold d; simpl; lia).
  f_equal; [|lia]. f_equal. rewrite (Pos2Z.inj_xO p).
  replace (53 - d) with (Z.succ (53 - (d + 1))) by lia.
  rewrite Z.pow_succ_r by lia. ring.
Qed.

Lemma fraction_small_checked : forallb fraction_small_check (py_range 1 54) = true.
Proof. vm_compute. reflexivity. Qed.

Lemma fraction_small (p : Z) :
  1 <= p <= 53 -> fraction p = S754_finite false 4503599627370496 (- p - 52).
Proof.
  intros Hp. pose proof fraction_small_checked as H.
  rewrite List.forallb_forall in H. apply float_eqb_eq. apply H.
  apply py_range_In. lia.
Qed.

Lemma digits_bound (M k : Z) : 0 < M < 2 ^ k -> 0 <= k -> Zdigits2 M <= k.
Proof.
  intros HM Hk. rewrite Zdigits2_pos_log2 by lia.
  assert (Z.log2 M < k) by (apply Z.log2_lt_pow2; lia). lia.
Qed.

(** One step of the sum: the fraction of [k] bits and numerator [M]
    becomes the fraction of [k + 1] bits and numerator [2 M + b]. *)
Lemma add_term (M k b : Z) :
  0 <= M < 2 ^ k -> 0 <= k <= 52 -> b = 0 \/ b = 1 ->
  py_add (PyFloat (dyadic M k)) (term (k + 1) b) =
  Ok (PyFloat (dyadic (2 * M + b) (k + 1))).
Proof.
  intros HM Hk Hb. unfold py_add, term. cbn [to_float bind]. do 2 f_equal.
  destruct M as [|p|p]; try lia.
  - destruct Hb as [-> | ->]; cbn [Z.eqb Z.mul Z.add Pos.eqb].
    + reflexivity.
    + rewrite fraction_small by lia. change (2 * 0 + 1) with 1.
      unfold dyadic, fzero, SFadd.
      change (Z.pos (digits2_pos 1)) with 1.
      change (Z.to_pos (1 * 2 ^ (53 - 1))) with 4503599627370496%positive.
      f_equal. lia.
  - assert (Hd : Z.pos (digits2_pos p) <= k) by (apply (digits_bound (Z.pos p)); lia).
    destruct Hb as [-> | ->].
    + change (0 =? 1) with false. cbv iota.
      replace (2 * Z.pos p + 0) with (Z.pos p~0) by lia.
      rewrite add_zero_bit by lia. reflexivity.
    + change (1 =? 1) with true. cbv iota.
      replace (2 * Z.pos p + 1) with (Z.pos p~1) by lia.
      rewrite fraction_small by lia.
      replace (- (k + 1) - 52) with (- k - 53) by lia.
      now apply add_bit.
Qed.

Lemma sum_from_dyadic (bits : list Z) :
  Forall (fun b => b = 0 \/ b = 1) bits ->
  forall (k : nat) (M : Z),
  0 <= M < 2 ^ Z.of_nat k -> (k + List.length bits <= 53)%nat ->
  sum_from (PyFloat (dyadic M (Z.of_nat k))) (terms_from k bits) =
  Ok (PyFloat (dyadic (fold_left (fun a b => 2 * a + b) bits M)
                      (Z.of_nat (k + List.length bits)))).
Proof.
  induction 1 as [|b bits Hb Hbits IH]; intros k M HM Hlen.
  - simpl. now rewrite Nat.add_0_r.
  - rewrite terms_from_cons. cbn [sum_from List.length fold_left] in *.
    replace (1 + Z.of_nat k) with (Z.of_nat k + 1) by lia.
    rewrite add_term by (auto; lia). cbn [bind].
    replace (Z.of_nat k + 1) with (Z.of_nat (S k)) by lia.
    rewrite IH.
    + do 3 f_equal. lia.
    + rewrite Nat2Z.inj_succ, Z.pow_succ_r by lia. destruct Hb; subst; lia.
    + lia.
Qed.

Lemma py_sum_dyadic (bits : list Z) :
  Forall (fun b => b = 0 \/ b = 1) bits -> bits <> [] ->
  (List.length bits <= 53)%nat ->
  py_sum (terms_from 0 bits) =
  Ok (PyFloat (dyadic (fold_left (fun a b => 2 * a + b) bits 0)
                      (Z.of_nat (List.length bits)))).
Proof.
  intros Hb Hne Hlen. destruct bits as [|b bits]; [congruence|].
  inversion Hb as [|? ? Hb0 Hbs]; subst.
  unfold py_sum. rewrite terms_from_cons. cbn [sum_from].
  assert (E : py_add (PyInt 0) (term (1 + Z.of_nat 0) b) = Ok (PyFloat (dyadic b 1))).
  { destruct Hb0 as [-> | ->]; [reflexivity|].
    unfold term. change (1 =? 1) with true. cbv iota.
    change (1 + Z.of_nat 0) with 1. rewrite fraction_small by lia. reflexivity. }
  rewrite E. cbn [bind].
  change 1 with (Z.of_nat 1) at 1.
  rewrite (sum_from_dyadic bits Hbs 1 b).
  - cbn [fold_left List.length]. replace (2 * 0 + b) with b by lia. reflexivity.
  - destruct Hb0; subst; simpl; lia.
  - simpl in Hlen. lia.
Qed.

Lemma SF2Q_dyadic (M k : Z) :
  0 <= M -> Zdigits2 M <= 53 -> 0 <= k ->
  (SF2Q (dyadic M k) == inject_Z M / inject_Z (2 ^ k))%Q.
Proof.
  intros HM Hd Hk. destruct M as [|p|p]; try lia.
  - simpl. unfold Qdiv. now rewrite Qmult_0_l.
  - change (Zdigits2 (Z.pos p)) with (Z.pos (digits2_pos p)) in Hd.
    unfold dyadic, SF2Q. set (d := Z.pos (digits2_pos p)) in *.
    assert (Hp : 0 < 2 ^ (53 - d)) by (apply Z.pow_pos_nonneg; lia).
    rewrite Z2Pos.id by lia.
    rewrite inject_Z_mult, !Zpower_Qpower by lia.
    change (inject_Z 2) with 2%Q.
    transitivity (inject_Z (Z.pos p) * (2 ^ (53 - d) * 2 ^ (d - k - 53)))%Q; [ring|].
    rewrite <- Qpower_plus by discriminate.
    replace (53 - d + (d - k - 53)) with (- k) by lia.
    rewrite Qpower_opp. reflexivity.
Qed.

Lemma binary_value_bits (chars : list ascii) :
  binary_value chars = fold_left (fun a b => 2 * a + b) (map bit_value chars) 0.
Proof.
  unfold binary_value. generalize 0.
  induction chars as [|c chars IH]; intros a; [reflexivity|]. simpl. apply IH.
Qed.

Lemma fold_bits_bound (bits : list Z) :
  Forall (fun b => b = 0 \/ b = 1) bits ->
  forall a k, 0 <= a < 2 ^ k -> 0 <= k ->
  0 <= fold_left (fun a b => 2 * a + b) bits a < 2 ^ (k + Z.of_nat (List.length bits)).
Proof.
  induction 1 as [|b bits Hb Hbits IH]; intros a k Ha Hk.
  - simpl. now rewrite Z.add_0_r.
  - cbn [fold_left List.length].
    replace (k + Z.of_nat (S (List.length bits)))
      with (Z.succ k + Z.of_nat (List.length bits)) by lia.
    apply IH; [|lia]. rewrite Z.pow_succ_r by lia. destruct Hb; subst; lia.
Qed.

(** For at most 53 bits the decoded decimal is the double that denotes the
    binary fraction of the label exactly. *)
Lemma label_decimal_dyadic (n : Z) (label : string) :
  Forall (fun c => is_bit c = true) (list_ascii_of_string label) ->
  label <> "" ->
  (String.length label <= Z.to_nat n)%nat -> (String.length label <= 53)%nat ->
  label_decimal
    (map (fun i => PyFloat (fraction (1 + Z.of_nat i))) (seq 0 (Z.to_nat n))) label
  = Ok (PyFloat (dyadic (binary_value (list_ascii_of_string label))
                        (Z.of_nat (String.length label)))).
Proof.
  intros Hbits Hne Hlen H53.
  set (bits := map bit_value (list_ascii_of_string label)).
  assert (Hb : Forall (fun b => b = 0 \/ b = 1) bits).
  { apply List.Forall_forall. intros b Hb. apply in_map_iff in Hb as (c & <- & _).
    apply bit_value_cases. }
  assert (Hbl : List.length bits = String.length label).
  { unfold bits. now rewrite List.length_map, length_list_ascii. }
  unfold label_decimal. rewrite (label_bits _ Hbits). cbn [bind]. fold bits.
  rewrite (code_terms bits Hb) by lia. cbn [bind].
  rewrite py_sum_dyadic; [|exact Hb| |lia].
  - now rewrite binary_value_bits, Hbl.
  - unfold bits. destruct label; [congruence|discriminate].
Qed.

Lemma fold_bits_linear (bits : list Z) (a : Z) :
  fold_left (fun a b => 2 * a + b) bits a =
  a * 2 ^ Z.of_nat (List.length bits) + fold_left (fun a b => 2 * a + b) bits 0.
Proof.
  revert a. induction bits as [|b bits IH]; intros a.
  - simpl. lia.
  - cbn [fold_left List.length]. rewrite (IH (2 * a + b)), (IH (2 * 0 + b)).
    rewrite Nat2Z.inj_succ, Z.pow_succ_r by lia. ring.
Qed.

Lemma binary_value_cons (c : ascii) (chars : list ascii) :
  binary_value (c :: chars) =
  bit_value c * 2 ^ Z.of_nat (List.length chars) + binary_value chars.
Proof.
  rewrite !binary_value_bits. cbn [map fold_left].
  rewrite fold_bits_linear, List.length_map. f_equal; lia.
Qed.

(** The sum of [bit_i / 2^i] is the numerator the bits spell over [2^n]. *)
Lemma exact_fraction_value (chars : list ascii) :
  forall i, 0 <= i ->
  (exact_fraction i chars ==
   inject_Z (binary_value chars) / 2 ^ (i - 1 + Z.of_nat (List.length chars)))%Q.
Proof.
  induction chars as [|c chars IH]; intros i Hi.
  - simpl. unfold Qdiv. now rewrite Qmult_0_l.
  - cbn [exact_fraction]. rewrite IH by lia. rewrite binary_value_cons.
    rewrite inject_Z_plus, inject_Z_mult, Zpower_Qpower by lia.
    change (inject_Z 2) with 2%Q. cbn [List.length].
    set (L := Z.of_nat (List.length chars)).
    replace (i + 1 - 1 + L) with (i + L) by lia.
    replace (i - 1 + Z.of_nat (S (List.length chars))) with (i + L) by lia.
    rewrite Qpower_plus by discriminate.
    assert (HX : ~ (2 ^ i == 0)%Q) by (apply Qpower_not_0; discriminate).
    assert (HY : ~ (2 ^ L == 0)%Q) by (apply Qpower_not_0; discriminate).
    field. split; assumption.
Qed.

Lemma binary_value_bound (chars : list ascii) :
  0 <= binary_value chars < 2 ^ Z.of_nat (List.length chars).
Proof.
  rewrite binary_value_bits.
  replace (Z.of_nat (List.length chars))
    with (0 + Z.of_nat (List.length (map bit_value chars)))
    by (rewrite List.length_map; lia).
  apply fold_bits_bound; [|simpl; lia|lia].
  apply List.Forall_forall. intros b Hb. apply in_map_iff in Hb as (c & <- & _).
  apply bit_value_cases.
Qed.

(** The double of a label of at most 53 bits denotes the binary fraction
    the label spells. *)
Lemma dyadic_exact (label : string) :
  (String.length label <= 53)%nat ->
  let f := dyadic (binary_value (list_ascii_of_string label))
                  (Z.of_nat (String.length label)) in
  nonneg_finite f = true /\
  (SF2Q f == exact_fraction 1 (list_ascii_of_string label))%Q.
Proof.
  intros H53. cbv zeta.
  set (chars := list_ascii_of_string label).
  set (M := binary_value chars).
  set (k := Z.of_nat (String.length label)).
  assert (HM : 0 <= M < 2 ^ k).
  { unfold M, k. rewrite <- (length_list_ascii label). apply binary_value_bound. }
  assert (Hd : Zdigits2 M <= 53).
  { destruct (Z.eq_dec M 0) as [-> | Hnz]; [simpl; lia|].
    assert (Zdigits2 M <= k) by (apply digits_bound; lia). lia. }
  split.
  - unfold dyadic. destruct M; reflexivity.
  - rewrite SF2Q_dyadic, exact_fraction_value by lia. fold chars M.
    replace (1 - 1 + Z.of_nat (List.length chars)) with k
      by (unfold chars, k; rewrite length_list_ascii; lia).
    rewrite Zpower_Qpower by lia. reflexivity.
Qed.

(** X14. For a non-empty label of at most 53 bits, no longer than the list
    of binary fractions, the decoded decimal is a double that denotes
    exactly the binary fraction the label spells: the sum of
    [bit_i / 2^i], that is the integer the bits spell over [2^length], a
    number in [0, 1). *)
Theorem decoded_fraction_exact (n : Z) (fractions : list pynum) (label : string) :
  mapM binary_fraction (py_range 1 (n + 1)) = Ok fractions ->
  Forall (fun c => is_bit c = true) (list_ascii_of_string label) ->
  label <> "" ->
  (String.length label <= Z.to_nat n)%nat ->
  (String.length label <= 53)%nat ->
  exists f,
    label_decimal fractions label = Ok (PyFloat f) /\
    (SF2Q f == exact_fraction 1 (list_ascii_of_string label))%Q /\
    (SF2Q f == inject_Z (binary_value (list_ascii_of_string label))
               / inject_Z (2 ^ Z.of_nat (String.length label)))%Q /\
    (0 <= SF2Q f)%Q /\ (SF2Q f < 1)%Q.
Proof.
  intros Hfr Hbits Hne Hlen H53.
  rewrite binary_fractions_ok in Hfr. injection Hfr as Hfr. subst fractions.
  set (chars := list_ascii_of_string label).
  set (M := binary_value chars).
  set (k := Z.of_nat (String.length label)).
  assert (HM : 0 <= M < 2 ^ k).
  { unfold M, k. rewrite <- (length_list_ascii label). apply binary_value_bound. }
  assert (Hd : Zdigits2 M <= 53).
  { destruct (Z.eq_dec M 0) as [-> | Hnz]; [simpl; lia|].
    assert (Zdigits2 M <= k) by (apply digits_bound; lia). lia. }
  assert (Hval : (SF2Q (dyadic M k) == inject_Z M / inject_Z (2 ^ k))%Q)
    by (apply SF2Q_dyadic; lia).
  assert (Hpow : (0 < inject_Z (2 ^ k))%Q).
  { change 0%Q with (inject_Z 0). rewrite <- Zlt_Qlt. apply Z.pow_pos_nonneg; lia. }
  exists (dyadic M k). split; [now apply label_decimal_dyadic|].
  split; [|split; [exact Hval|split]].
  - rewrite Hval, exact_fraction_value by lia. fold chars M.
    replace (1 - 1 + Z.of_nat (List.length chars)) with k
      by (unfold chars, k; rewrite length_list_ascii; lia).
    rewrite Zpower_Qpower by lia. reflexivity.
  - rewrite Hval. apply Qle_shift_div_l; [exact Hpow|].
    rewrite Qmult_0_l. change 0%Q with (inject_Z 0). rewrite <- Zle_Qle. lia.
  - rewrite Hval. apply Qlt_shift_div_r; [exact Hpow|].
    rewrite Qmult_1_l. rewrite <- Zlt_Qlt. lia.
Qed.

(** Beyond 53 bits the sum is rounded: the last bit of [label_54] is lost. *)
Example decoded_fraction_rounded :
  exists fractions,
    mapM binary_fraction (py_range 1 (54 + 1)) = Ok fractions /\
    label_decimal fractions label_54 = Ok (PyFloat fhalf) /\
    ~ (SF2Q fhalf == exact_fraction 1 (list_ascii_of_string label_54))%Q.
Proof.
  eexists. split; [vm_compute; reflexivity|]. split; [vm_compute; reflexivity|].
  intros H. apply Qeq_bool_iff in H. vm_compute in H. discriminate.
Qed.

End Exact.

(* ================================================================== *)
(** * Phase estimation: the label and the decimal of the top measurement *)
(* ================================================================== *)

Section TopMeasurement.

Import QPE.

Context {coeff : Type}.

(** C3, amended. The label of the top measurement is bit-reversed: in
    counts mode it is the reversed key of an outcome of highest count, in
    state-vector mode the reversed binary representation of an index whose
    diagonal entry has the largest magnitude; the decimal is decoded from
    this label, and a run that returns stores this label and this decimal.
    For at most 53 ancillae the decoded decimal is a non-negative finite
    double that denotes exactly the sum over the bit positions [i],
    starting at 1, of [bit_i / 2^i] of that label. *)
Theorem top_measurement_label_decimal (self : t coeff) (res : backend_result) :
  1 <= _num_ancillae self ->
  mapM binary_fraction (py_range 1 (_num_ancillae self + 1)) = Ok (_binary_fractions self) ->
  well_formed (_num_ancillae self) res = true ->
  exists label decimal,
    top_measurement_label (_num_ancillae self) res = Ok label /\
    match res with
    | Counts ancilla_counts =>
        exists key count,
          In (key, count) ancilla_counts /\
          (forall k c, In (k, c) ancilla_counts -> c <= count) /\
          label = str_rev key
    | Statevector diag =>
        exists idx amp,
          nth_error diag idx = Some amp /\
          (forall v, In v diag -> (Qabs v <= Qabs amp)%Q) /\
          label = str_rev (Np.binary_repr idx (_num_ancillae self))
    end /\
    label_decimal (_binary_fractions self) label = Ok decimal /\
    (forall self', _compute_energy self res = Ok self' ->
       _ret self' !! "top_measurement_label" = Some (VStr label) /\
       _ret self' !! "top_measurement_decimal" = Some (VNum decimal)) /\
    (_num_ancillae self <= 53 ->
     exists f,
       decimal = PyFloat f /\
       nonneg_finite f = true /\
       (SF2Q f == exact_fraction 1 (list_ascii_of_string label))%Q).
Proof.
  intros Hn Hfr Hwf.
  destruct (top_measurement_label_shape _ res Hn Hwf) as (label & Hl & Hbits & Hlen & Hmode).
  destruct (label_decimal_formula (_num_ancillae self) label Hbits ltac:(lia))
    as (decimal & Hd & _).
  rewrite binary_fractions_ok in Hfr. injection Hfr as Hfr. rewrite Hfr in Hd.
  assert (Hne : label <> "") by (intros ->; simpl in Hlen; lia).
  exists label, decimal. split; [exact Hl|]. split; [exact Hmode|].
  split; [exact Hd|]. split.
  - intros self' H. exact (compute_energy_stores self self' res label decimal Hl Hd H).
  - intros H53.
    assert (Hlen53 : (String.length label <= 53)%nat) by lia.
    pose proof (label_decimal_dyadic (_num_ancillae self) label Hbits Hne
                  ltac:(lia) Hlen53) as Hdy.
    rewrite Hfr, Hd in Hdy. injection Hdy as Hdy.
    destruct (dyadic_exact label Hlen53) as [Hfin Hexact].
    eexists. split; [exact Hdy|]. split; [exact Hfin|exact Hexact].
Qed.

End TopMeasurement.

(* ================================================================== *)
(** * Phase estimation: failures and repetition of the energy step      *)
(* ================================================================== *)

Section MoreEnergy.

Import QPE.

Context {coeff : Type} (coeff_abs : coeff -> number)
        (coeff_scale : coeff -> number -> result coeff)
        {InitialState IQFT : Type}.



(** X16. [_compute_energy] keeps the number of ancillae, the Pauli list and
    the binary fractions of the instance and the entries 'translation' and
    'stretch' of the dictionary; in state-vector mode, where the code
    changes no other object, a second call with the same backend result
    returns the same instance. *)
Theorem compute_energy_idempotent (self self' : t coeff) (res : backend_result) :
  _compute_energy self res = Ok self' ->
  _num_ancillae self' = _num_ancillae self /\
  _pauli_list self' = _pauli_list self /\
  _binary_fractions self' = _binary_fractions self /\
  _ret self' !! "translation" = _ret self !! "translation" /\
  _ret self' !! "stretch" = _ret self !! "stretch" /\
  (is_statevector res = true -> _compute_energy self' res = Ok self').
Proof.
  intros H. unfold _compute_energy in H.
  destruct (top_measurement_label _ res) as [label|] eqn:Hl; [|discriminate].
  cbn [bind] in H.
  destruct (label_decimal _ label) as [decimal|] eqn:Hd; [|discriminate].
  cbn [bind] in H. unfold getitem in H.
  rewrite !lookup_insert_ne in H by discriminate.
  destruct (_ret self !! "stretch") as [vs|] eqn:Hs; [|discriminate]. cbn [bind] in H.
  destruct (as_num vs) as [stretch|] eqn:Has; [|discriminate]. cbn [bind] in H.
  destruct (num_truediv decimal stretch) as [scaled|] eqn:Hdiv; [|discriminate].
  cbn [bind] in H.
  destruct (_ret self !! "translation") as [vt|] eqn:Ht; [|discriminate]. cbn [bind] in H.
  destruct (as_num vt) as [translation|] eqn:Hat; [|discriminate]. cbn [bind] in H.
  destruct (num_sub scaled translation) as [eigval|] eqn:Hsub; [|discriminate].
  cbn [bind] in H. injection H as H. subst self'.
  cbn [_num_ancillae _pauli_list _binary_fractions _ret].
  split; [reflexivity|]. split; [reflexivity|]. split; [reflexivity|].
  split; [now simplify_map_eq|]. split; [now simplify_map_eq|].
  intros _.
  unfold _compute_energy. cbn [_num_ancillae _pauli_list _binary_fractions _ret].
  rewrite Hl. cbn [bind]. rewrite Hd. cbn [bind]. unfold getitem.
  simplify_map_eq. rewrite Has. cbn [bind]. rewrite Hdiv. cbn [bind].
  rewrite Hat. cbn [bind]. rewrite Hsub. cbn [bind].
  do 2 f_equal. apply map_eq. intros key.
  repeat (rewrite lookup_insert; case_decide); subst; try reflexivity; congruence.
Qed.

(** X17. On a constructed instance with a non-zero stretch and a
    well-formed backend result, [_run] returns the dictionary of exactly
    six entries: 'translation' and 'stretch' as the constructor stored
    them, a label of one bit for each ancilla, its decimal, and one
    eigenvalue under both 'eigvals' and 'energy'. *)
Theorem qpe_run_result (operator : Operator coeff)
    (state_in : InitialState) (iqft : IQFT) (nts n : Z) (mode : string) (order : Z)
    (sh : bool) (self : t coeff) (res : backend_result) :
  __init__ coeff_abs coeff_scale operator state_in iqft nts n mode order sh = Ok self ->
  well_formed n res = true ->
  (forall s : pynum, _ret self !! "stretch" = Some (VNum s) -> py_is_zero s = false) ->
  exists ret label eigval,
    _run self res = Ok ret /\
    dom ret = ({["translation"; "stretch"; "top_measurement_label";
                 "top_measurement_decimal"; "eigvals"; "energy"]} : gset string) /\
    ret !! "translation" = _ret self !! "translation" /\
    ret !! "stretch" = _ret self !! "stretch" /\
    ret !! "top_measurement_label" = Some (VStr label) /\
    String.length label = Z.to_nat n /\
    Forall (fun c => is_bit c = true) (list_ascii_of_string label) /\
    ret !! "eigvals" = Some (VList [eigval]) /\
    ret !! "energy" = Some (VNum eigval).
Proof.
  intros Hinit Hwf Hnz.
  destruct (init_factors _ _ _ _ _ _ _ _ _ _ _ Hinit)
    as (translation & stretch & pl & tf & Hn & _ & _ & Htf & Hkind & ->).
  cbn [_ret] in Hnz.
  assert (Hs : (exists sf, stretch = Python (PyFloat sf) /\ is_zero sf = false)
               \/ (exists sf, stretch = Float64 sf)).
  { destruct Hkind as [(_ & _ & ->) | (_ & ->)]; [left|right; eauto].
    eexists. split; [reflexivity|].
    apply (Hnz (PyFloat (SFdiv prec emax fhalf tf))). now simplify_map_eq. }
  match goal with |- context [_run ?s _] => set (self := s) end.
  destruct (top_measurement_label_shape n res Hn Hwf) as (label & Hl & Hbits & Hlen & _).
  destruct (label_decimal_formula n label Hbits ltac:(lia)) as (decimal & Hd & Hf).
  assert (Hne : label <> "") by (intros ->; simpl in Hlen; lia).
  specialize (Hf Hne). destruct decimal as [z|d]; [discriminate|].
  destruct (affine_returns d tf stretch translation Htf Hs)
    as (scaled & eigval & Hdiv & Hsub).
  pose proof (compute_energy_run self res label (PyFloat d) stretch translation
                scaled eigval Hl Hd ltac:(subst self; cbn [_ret]; now simplify_map_eq)
                ltac:(subst self; cbn [_ret]; now simplify_map_eq) Hdiv Hsub) as Hrun.
  exists (<["energy" := VNum eigval]> (<["eigvals" := VList [eigval]]>
          (<["top_measurement_decimal" := VNum (PyFloat d)]>
          (<["top_measurement_label" := VStr label]> (_ret self))))), label, eigval.
  unfold _run. rewrite Hrun. cbn [bind _ret].
  split; [reflexivity|]. subst self. cbn [_ret].
  split; [rewrite !dom_insert_L, dom_empty_L; set_solver|].
  split; [now simplify_map_eq|]. split; [now simplify_map_eq|].
  split; [now simplify_map_eq|]. split; [exact Hlen|]. split; [exact Hbits|].
  split; now simplify_map_eq.
Qed.


End MoreEnergy.

(* ================================================================== *)
(** * The further statements on sample data                             *)
(* ================================================================== *)

Lemma top_measurement_label_decimal_witness :
  exists label decimal,
    QPE.top_measurement_label 2 sample_statevector = Ok label /\
    QPE.label_decimal (QPE._binary_fractions sample_qpe) label = Ok (PyFloat decimal) /\
    (SF2Q decimal == exact_fraction 1 (list_ascii_of_string label))%Q.
Proof.
  destruct (top_measurement_label_decimal sample_qpe sample_statevector)
    as (label & decimal & Hl & _ & Hd & _ & Hexact).
  - simpl. lia.
  - vm_compute. reflexivity.
  - reflexivity.
  - destruct Hexact as (f & -> & _ & Hf); [simpl; lia|].
    exists label, f. split; [exact Hl|]. split; [exact Hd|exact Hf].
Defined.

(** C3, as stated, does not hold: on the instance constructed with 54
    ancillae, the run on counts whose top outcome is [label_54] stores the
    decimal [0.5], while the sum of [bit_i / 2^i] of that label is
    [1/2 + 1/2^54]. *)
Lemma top_measurement_decimal_rounded :
  exists self self',
    QPE.__init__ num_abs num_mul sample_operator tt tt 1 54 "trotter" 1 false = Ok self /\
    QPE._compute_energy self (QPE.Counts [(label_54, 1)]) = Ok self' /\
    QPE._ret self' !! "top_measurement_label" = Some (QPE.VStr label_54) /\
    QPE._ret self' !! "top_measurement_decimal" = Some (QPE.VNum (PyFloat fhalf)) /\
    (exact_fraction 1 (list_ascii_of_string label_54) == (1 # 2) + 1 / 2 ^ 54)%Q /\
    ~ (SF2Q fhalf == exact_fraction 1 (list_ascii_of_string label_54))%Q.
Proof.
  eexists _, _. split; [vm_compute; reflexivity|].
  split; [vm_compute; reflexivity|].
  split; [vm_compute; reflexivity|]. split; [vm_compute; reflexivity|].
  split.
  - apply Qeq_bool_iff. vm_compute. reflexivity.
  - intros H. apply Qeq_bool_iff in H. vm_compute in H. discriminate.
Qed.

Lemma interpret_measurement_outcomes_witness :
  DeutschJozsa.interpret_measurement [] = Raise ValueError /\
  [("00", 7); ("01", 1)] <> ([] : list (string * Z)) /\
  ("constant" = "constant" \/ "constant" = "balanced").
Proof.
  split.
  - apply (proj1 (interpret_measurement_outcomes [])). reflexivity.
  - apply (proj1 (proj2 (interpret_measurement_outcomes [("00", 7); ("01", 1)]))).
    reflexivity.
Defined.

Lemma interpret_measurement_first_maximal_witness :
  DeutschJozsa.interpret_measurement [("01", 2); ("00", 5); ("10", 5); ("11", 1)]
  = Ok "constant".
Proof.
  apply (interpret_measurement_first_maximal [("01", 2)] [("10", 5); ("11", 1)] "00" 5).
  - reflexivity.
  - intros k' c' [H | []]. injection H as _ H. lia.
  - intros k' c' [H | [H | []]]; injection H as _ H; lia.
Defined.

Lemma interpret_measurement_order_independent_witness :
  DeutschJozsa.interpret_measurement [("11", 9); ("00", 1)] =
  DeutschJozsa.interpret_measurement [("00", 1); ("11", 9)].
Proof.
  apply (interpret_measurement_order_independent
           [("00", 1); ("11", 9)] [("11", 9); ("00", 1)] "11" 9).
  - constructor; [intros [H | []]; discriminate|].
    constructor; [intros []|constructor].
  - apply perm_swap.
  - right. left. reflexivity.
  - reflexivity.
  - intros k' c' [H | [H | []]] Hne; injection H as Hk Hc; [lia|congruence].
Defined.

Lemma construct_circuit_size_witness :
  exists c self' hp' qc,
    DeutschJozsa.construct_circuit (DeutschJozsa.__init__ sample_oracle) []
      = Ok (c, self', hp') /\
    Terra.deref hp' c = Some qc /\
    List.length (Terra.data qc) = 11%nat.
Proof.
  destruct (construct_circuit_size sample_oracle []) as (c & self' & hp' & qc & H1 & H2 & H3).
  - reflexivity.
  - exists c, self', hp', qc. split; [exact H1|]. split; [exact H2|exact H3].
Defined.

Lemma construct_circuit_measures_last_witness :
  exists c self' hp' qc,
    DeutschJozsa.construct_circuit (DeutschJozsa.__init__ sample_oracle) []
      = Ok (c, self', hp') /\
    Terra.deref hp' c = Some qc /\
    nth_error (Terra.data qc) 10 =
      Some (measure_at (DeutschJozsa.variable_register sample_oracle)
                       (DeutschJozsa.measurement_cr sample_oracle) 1).
Proof.
  destruct (construct_circuit_measures_last sample_oracle [])
    as (c & self' & hp' & qc & front & H1 & H2 & _ & _ & Hfront & Hnth & _).
  - reflexivity.
  - exists c, self', hp', qc. split; [exact H1|]. split; [exact H2|].
    specialize (Hnth 1%nat). rewrite Hfront in Hnth. apply Hnth. simpl. lia.
Defined.

Lemma dj_run_first_witness :
  exists ret self' hp',
    DeutschJozsaRun._run (DeutschJozsaRun.__init__ sample_oracle) []
                         [("00", 7); ("01", 1)] = Ok (ret, self', hp') /\
    dom ret = ({["circuit"; "measurements"; "result"]} : gset string).
Proof.
  destruct (dj_run_first sample_oracle [] [("00", 7); ("01", 1)])
    as (ret & self' & hp' & c & answer & Hrun & _ & _ & _ & _ & _ & Hdom).
  - reflexivity.
  - discriminate.
  - repeat constructor.
  - exists ret, self', hp'. split; [exact Hrun|exact Hdom].
Defined.

Lemma dj_run_twice_witness :
  exists ret1 self1 hp1 ret2 self2,
    DeutschJozsaRun._run (DeutschJozsaRun.__init__ sample_oracle) []
                         [("00", 7); ("01", 1)] = Ok (ret1, self1, hp1) /\
    DeutschJozsaRun._run self1 hp1 [("11", 4)] = Ok (ret2, self2, hp1) /\
    ret2 !! "circuit" = ret1 !! "circuit" /\
    ret2 !! "result" = Some (DeutschJozsaRun.VResult "balanced").
Proof.
  destruct (dj_run_twice sample_oracle [] [("00", 7); ("01", 1)] [("11", 4)] "balanced")
    as (ret1 & self1 & hp1 & c & ret2 & self2 & Hrun1 & Hrun2 & Hc1 & Hc2 & _ & _ & Hr & _).
  - reflexivity.
  - discriminate.
  - repeat constructor.
  - reflexivity.
  - exists ret1, self1, hp1, ret2, self2. split; [exact Hrun1|]. split; [exact Hrun2|].
    split; [now rewrite Hc1, Hc2|exact Hr].
Defined.

Lemma VarFormBased_init_then_circuit_witness :
  VarFormBased.num_parameters sample_var_form = 2 /\
  VarFormBased.construct_circuit sample_initial_state "circuit" None =
    Ok (Terra.new_circuit []).
Proof.
  destruct (VarFormBased_init_then_circuit sample_var_form [PyInt 0; PyInt 1]
              sample_initial_state None) as (Hn & Hc & _).
  - reflexivity.
  - split; [exact Hn|exact Hc].
Defined.

Lemma init_binary_fractions_witness :
  List.length (QPE._binary_fractions sample_qpe) = 2%nat /\
  List.length (QPE._pauli_list sample_qpe) = 2%nat.
Proof.
  destruct (init_binary_fractions num_abs num_mul sample_operator tt tt
              1 2 "trotter" 1 false sample_qpe) as (_ & Hf & Hp & _).
  - vm_compute. reflexivity.
  - split; [exact Hf|exact Hp].
Defined.

Lemma counts_label_largest_key_witness :
  exists key count,
    In (key, count) [("01", 3); ("10", 9); ("11", 9)] /\
    QPE.counts_label [("01", 3); ("10", 9); ("11", 9)] = Ok (Py.str_rev key).
Proof.
  destruct (counts_label_largest_key [("01", 3); ("10", 9); ("11", 9)])
    as (key & count & Hin & Hl & _).
  - discriminate.
  - exists key, count. split; [exact Hin|exact Hl].
Defined.

Lemma counts_label_order_independent_witness :
  QPE.counts_label [("01", 3); ("10", 9)] = QPE.counts_label [("10", 9); ("01", 3)].
Proof.
  apply (counts_label_order_independent [("10", 9); ("01", 3)] [("01", 3); ("10", 9)]).
  apply perm_swap.
Defined.

Lemma statevector_label_first_maximum_witness :
  exists idx amp,
    nth_error [0%Q; (1 # 4)%Q; (3 # 4)%Q; 0%Q] idx = Some amp /\
    QPE.statevector_label 2 [0%Q; (1 # 4)%Q; (3 # 4)%Q; 0%Q] =
      Ok (Py.str_rev (Np.binary_repr idx 2)).
Proof.
  destruct (statevector_label_first_maximum 2 [0%Q; (1 # 4)%Q; (3 # 4)%Q; 0%Q])
    as (idx & amp & Hn & _ & _ & Hl).
  - discriminate.
  - intros v [H | [H | [H | [H | []]]]]; subst v; unfold Qle; simpl; lia.
  - exists idx, amp. split; [exact Hn|exact Hl].
Defined.

Lemma statevector_label_spells_index_witness :
  exists idx,
    binary_value (rev (list_ascii_of_string "01")) = Z.of_nat idx.
Proof.
  destruct (statevector_label_spells_index 2 [0%Q; (1 # 4)%Q; (3 # 4)%Q; 0%Q] "01")
    as (idx & amp & _ & _ & Hv).
  - vm_compute. reflexivity.
  - exists idx. exact Hv.
Defined.

Lemma decoded_fraction_exact_witness :
  exists f,
    QPE.label_decimal [PyFloat (S754_finite false 4503599627370496 (-53));
                       PyFloat (S754_finite false 4503599627370496 (-54));
                       PyFloat (S754_finite false 4503599627370496 (-55))] "101"
      = Ok (PyFloat f) /\
    (SF2Q f == exact_fraction 1 (list_ascii_of_string "101"))%Q.
Proof.
  destruct (decoded_fraction_exact 3
              [PyFloat (S754_finite false 4503599627370496 (-53));
               PyFloat (S754_finite false 4503599627370496 (-54));
               PyFloat (S754_finite false 4503599627370496 (-55))] "101")
    as (f & Hd & Hx & _).
  - vm_compute. reflexivity.
  - repeat constructor.
  - discriminate.
  - simpl. lia.
  - simpl. lia.
  - exists f. split; [exact Hd|exact Hx].
Defined.


Lemma compute_energy_idempotent_witness :
  exists self',
    QPE._compute_energy sample_qpe sample_statevector = Ok self' /\
    QPE._ret self' !! "stretch" = Some (QPE.VNum sample_stretch) /\
    QPE._compute_energy self' sample_statevector = Ok self'.
Proof.
  assert (H : { self' | QPE._compute_energy sample_qpe sample_statevector = Ok self' }).
  { eexists. vm_compute. reflexivity. }
  destruct H as [self' H]. exists self'. split; [exact H|].
  destruct (compute_energy_idempotent sample_qpe self' sample_statevector H)
    as (_ & _ & _ & _ & Hst & Hagain).
  split; [rewrite Hst; reflexivity|].
  apply Hagain. reflexivity.
Defined.

Lemma qpe_run_result_witness :
  exists ret,
    QPE._run sample_qpe sample_counts = Ok ret /\
    dom ret = ({["translation"; "stretch"; "top_measurement_label";
                 "top_measurement_decimal"; "eigvals"; "energy"]} : gset string).
Proof.
  destruct (qpe_run_result num_abs num_mul sample_operator tt tt
              1 2 "trotter" 1 false sample_qpe sample_counts)
    as (ret & label & eigval & Hrun & Hdom & _).
  - vm_compute. reflexivity.
  - reflexivity.
  - intros s Hs. vm_compute in Hs. injection Hs as Hs. subst s. reflexivity.
  - exists ret. split; [exact Hrun|exact Hdom].
Defined.

